(** * A contact manager: record data model and command layer

    Shallow embedding of [HW-8.py] (the address book bot) and proofs of the
    properties its specification states about it.

    Conventions of the embedding:
    - a Python [str] is a list of Unicode code points ([N]);
    - a call that may raise returns an [outcome]: [Return v] or [Raise e];
    - objects that are mutated in place ([Record] instances) live in a heap
      and are referred to by address, so that aliasing between the address
      book and a local variable is visible;
    - [datetime.now()] is an input ([today]) of the functions that read the
      clock. *)

From Stdlib Require Import ZArith NArith Lia Ascii String.
From stdpp Require Import base option list.

Local Open Scope Z_scope.

(** ** Python strings *)

Abbreviation str := (list N).

(** Source literals are ASCII; [u "..."] is the code point list of one. *)
Definition u (s : string) : str := map N_of_ascii (list_ascii_of_string s).

(** Inclusive code point ranges, for the Unicode property tables. *)
Fixpoint in_ranges (c : N) (t : list (N * N)) : bool :=
match t with
| [] => false
| (lo, hi) :: t' => ((lo <=? c)%N && (c <=? hi)%N) || in_ranges c t'
end.

(** Code points of general category Nd (Numeric_Type=Decimal), Unicode 14.
    Every range starts at the digit zero of its script and holds whole runs
    0..9, so the value of a digit is its offset in the range modulo 10. *)
Definition decimal_ranges : list (N * N) :=
[ (0x30, 0x39); (0x660, 0x669); (0x6f0, 0x6f9); (0x7c0, 0x7c9);
  (0x966, 0x96f); (0x9e6, 0x9ef); (0xa66, 0xa6f); (0xae6, 0xaef);
  (0xb66, 0xb6f); (0xbe6, 0xbef); (0xc66, 0xc6f); (0xce6, 0xcef);
  (0xd66, 0xd6f); (0xde6, 0xdef); (0xe50, 0xe59); (0xed0, 0xed9);
  (0xf20, 0xf29); (0x1040, 0x1049); (0x1090, 0x1099); (0x17e0, 0x17e9);
  (0x1810, 0x1819); (0x1946, 0x194f); (0x19d0, 0x19d9); (0x1a80, 0x1a89);
  (0x1a90, 0x1a99); (0x1b50, 0x1b59); (0x1bb0, 0x1bb9); (0x1c40, 0x1c49);
  (0x1c50, 0x1c59); (0xa620, 0xa629); (0xa8d0, 0xa8d9); (0xa900, 0xa909);
  (0xa9d0, 0xa9d9); (0xa9f0, 0xa9f9); (0xaa50, 0xaa59); (0xabf0, 0xabf9);
  (0xff10, 0xff19); (0x104a0, 0x104a9); (0x10d30, 0x10d39);
  (0x11066, 0x1106f); (0x110f0, 0x110f9); (0x11136, 0x1113f);
  (0x111d0, 0x111d9); (0x112f0, 0x112f9); (0x11450, 0x11459);
  (0x114d0, 0x114d9); (0x11650, 0x11659); (0x116c0, 0x116c9);
  (0x11730, 0x11739); (0x118e0, 0x118e9); (0x11950, 0x11959);
  (0x11c50, 0x11c59); (0x11d50, 0x11d59); (0x11da0, 0x11da9);
  (0x16a60, 0x16a69); (0x16ac0, 0x16ac9); (0x16b50, 0x16b59);
  (0x1d7ce, 0x1d7ff); (0x1e140, 0x1e149); (0x1e2f0, 0x1e2f9);
  (0x1e950, 0x1e959); (0x1fbf0, 0x1fbf9) ]%N.

(** Code points with Numeric_Type=Digit that are not decimal (superscripts,
    circled digits and the like), Unicode 14. *)
Definition digit_only_ranges : list (N * N) :=
[ (0xb2, 0xb3); (0xb9, 0xb9); (0x1369, 0x1371); (0x19da, 0x19da);
  (0x2070, 0x2070); (0x2074, 0x2079); (0x2080, 0x2089); (0x2460, 0x2468);
  (0x2474, 0x247c); (0x2488, 0x2490); (0x24ea, 0x24ea); (0x24f5, 0x24fd);
  (0x24ff, 0x24ff); (0x2776, 0x277e); (0x2780, 0x2788); (0x278a, 0x2792);
  (0x10a40, 0x10a43); (0x10e60, 0x10e68); (0x11052, 0x1105a);
  (0x1f100, 0x1f10a) ]%N.

(** Code points for which [str.isspace] holds, Unicode 14. *)
Definition space_ranges : list (N * N) :=
[ (0x9, 0xd); (0x1c, 0x20); (0x85, 0x85); (0xa0, 0xa0); (0x1680, 0x1680);
  (0x2000, 0x200a); (0x2028, 0x2029); (0x202f, 0x202f); (0x205f, 0x205f);
  (0x3000, 0x3000) ]%N.

Definition char_isdecimal (c : N) : bool := in_ranges c decimal_ranges.
Definition char_isdigit (c : N) : bool :=
  in_ranges c decimal_ranges || in_ranges c digit_only_ranges.
Definition char_isspace (c : N) : bool := in_ranges c space_ranges.

(** The ten characters [0] .. [9] of ASCII. *)
Definition char_is_ascii_digit (c : N) : bool := (0x30 <=? c)%N && (c <=? 0x39)%N.

(** [str.isdigit()]: every character is a digit and there is at least one. *)
Definition str_isdigit (s : str) : bool :=
match s with
| [] => false
| _ => forallb char_isdigit s
end.

(** [len(s)] *)
Definition len {A} (l : list A) : Z := Z.of_nat (length l).

(** ** Exceptions and outcomes *)

Inductive exn :=
| ValueError (msg : str)
| KeyError (msg : str)
| OverflowError (msg : str).

Inductive outcome (A : Type) :=
| Return (a : A)
| Raise (e : exn).
Arguments Return {A} a.
Arguments Raise {A} e.

Definition is_return {A} (o : outcome A) : Prop := ∃ a, o = Return a.

(** ** Field value types *)

Record Name := mkName { Name_value : str }.

Record Phone := mkPhone { Phone_value : str }.

(** [Phone.__init__] *)
Definition Phone_init (value : str) : outcome Phone :=
  if negb (str_isdigit value) || negb (len value =? 10)
  then Raise (ValueError (u "Phone number must be 10 digits"))
  else Return (mkPhone value).

(** ** Calendar arithmetic of the [datetime] module *)

Record datetime := mkDatetime {
  year : Z; month : Z; day : Z;
  hour : Z; minute : Z; second : Z; microsecond : Z }.

Definition MINYEAR : Z := 1.
Definition MAXYEAR : Z := 9999.
Definition MAXORDINAL : Z := 3652059.

Definition is_leap (y : Z) : bool :=
  (y mod 4 =? 0) && (negb (y mod 100 =? 0) || (y mod 400 =? 0)).

Definition DAYS_IN_MONTH (m : Z) : Z :=
  nth (Z.to_nat m) [-1; 31; 28; 31; 30; 31; 30; 31; 31; 30; 31; 30; 31] 0.

Definition DAYS_BEFORE_MONTH (m : Z) : Z :=
  nth (Z.to_nat m) [-1; 0; 31; 59; 90; 120; 151; 181; 212; 243; 273; 304; 334] 0.

Definition days_in_month (y m : Z) : Z :=
  if (m =? 2) && is_leap y then 29 else DAYS_IN_MONTH m.

Definition days_before_year (y : Z) : Z :=
  let y := y - 1 in y * 365 + y / 4 - y / 100 + y / 400.

Definition days_before_month (y m : Z) : Z :=
  DAYS_BEFORE_MONTH m + (if (2 <? m) && is_leap y then 1 else 0).

Definition ymd2ord (y m d : Z) : Z :=
  days_before_year y + days_before_month y m + d.

Definition DI400Y : Z := 146097.
Definition DI100Y : Z := 36524.
Definition DI4Y : Z := 1461.

(** [_ord2ymd]: ordinal to (year, month, day), 1 January of year 1 being
    day 1. *)
Definition ord2ymd (n : Z) : Z * Z * Z :=
  let n := n - 1 in
  let n400 := n / DI400Y in let n := n mod DI400Y in
  let y := n400 * 400 + 1 in
  let n100 := n / DI100Y in let n := n mod DI100Y in
  let n4 := n / DI4Y in let n := n mod DI4Y in
  let n1 := n / 365 in let n := n mod 365 in
  let y := y + n100 * 100 + n4 * 4 + n1 in
  if (n1 =? 4) || (n100 =? 4) then (y - 1, 12, 31)
  else
    let leapyear := (n1 =? 3) && (negb (n4 =? 24) || (n100 =? 3)) in
    let m := Z.shiftr (n + 50) 5 in
    let preceding := DAYS_BEFORE_MONTH m + (if (2 <? m) && leapyear then 1 else 0) in
    let '(m, preceding) :=
      if n <? preceding
      then (m - 1, preceding - (DAYS_IN_MONTH (m - 1) +
                                (if (m - 1 =? 2) && leapyear then 1 else 0)))
      else (m, preceding) in
    (y, m, n - preceding + 1).

(** The [datetime(...)] constructor: the date fields are range checked
    ([_check_date_fields]); the time fields the program passes are always in
    range. *)
Definition datetime_new (y m d hh mm ss us : Z) : outcome datetime :=
  if negb ((MINYEAR <=? y) && (y <=? MAXYEAR))
  then Raise (ValueError (u "year is out of range"))
  else if negb ((1 <=? m) && (m <=? 12))
  then Raise (ValueError (u "month must be in 1..12"))
  else if negb ((1 <=? d) && (d <=? days_in_month y m))
  then Raise (ValueError (u "day is out of range for month"))
  else Return (mkDatetime y m d hh mm ss us).

(** [dt.replace(year=y)] *)
Definition datetime_replace_year (dt : datetime) (y : Z) : outcome datetime :=
  datetime_new y (month dt) (day dt) (hour dt) (minute dt) (second dt)
               (microsecond dt).

(** [dt + timedelta(days=n)]: the time of day is kept, the date moves by
    [n] days through its ordinal. *)
Definition datetime_add_days (dt : datetime) (n : Z) : outcome datetime :=
  let days := ymd2ord (year dt) (month dt) (day dt) + n in
  if (0 <? days) && (days <=? MAXORDINAL)
  then let '(y, m, d) := ord2ymd days in
       Return (mkDatetime y m d (hour dt) (minute dt) (second dt) (microsecond dt))
  else Raise (OverflowError (u "date value out of range")).

Definition datetime_fields (dt : datetime) : list Z :=
  [year dt; month dt; day dt; hour dt; minute dt; second dt; microsecond dt].

(** Lexicographic comparison of the field tuples, as [datetime._cmp]. *)
Fixpoint tuple_le (a b : list Z) : bool :=
match a, b with
| x :: a', y :: b' => (x <? y) || ((x =? y) && tuple_le a' b')
| [], _ => true
| _ :: _, [] => false
end.

(** [a <= b] on naive datetimes *)
Definition datetime_le (a b : datetime) : bool :=
  tuple_le (datetime_fields a) (datetime_fields b).

(** ** The regular expressions of [_strptime]

    [strptime] turns its format into a regular expression and matches it
    against the text with a backtracking matcher.  The fragment needed for
    ["%d.%m.%Y"] has literals, character ranges, the class [\d] (any decimal
    digit of Unicode), concatenation and ordered alternation. *)

Inductive regex :=
| Lit (c : N)
| Range (lo hi : N)
| Digit
| Cat (r1 r2 : regex)
| Alt (r1 r2 : regex).

Definition one_char (p : N → bool) (s : str) : list (str * str) :=
match s with
| c :: s' => if p c then [([c], s')] else []
| [] => []
end.

(** All the ways [r] matches a prefix of [s], as (matched text, rest), in the
    order in which a backtracking matcher tries them. *)
Fixpoint re_run (r : regex) (s : str) : list (str * str) :=
match r with
| Lit c => one_char (N.eqb c) s
| Range lo hi => one_char (fun c => (lo <=? c)%N && (c <=? hi)%N) s
| Digit => one_char char_isdecimal s
| Cat r1 r2 =>
    flat_map (fun '(m1, s1) =>
                map (fun '(m2, s2) => (m1 ++ m2, s2)) (re_run r2 s1))
             (re_run r1 s)
| Alt r1 r2 => re_run r1 s ++ re_run r2 s
end.

Definition ch (s : string) : N :=
match s with
| String a _ => N_of_ascii a
| EmptyString => 0%N
end.

(** [3[0-1]|[1-2]\d|0[1-9]|[1-9]| [1-9]] *)
Definition re_d : regex :=
  Alt (Cat (Lit (ch "3")) (Range (ch "0") (ch "1")))
 (Alt (Cat (Range (ch "1") (ch "2")) Digit)
 (Alt (Cat (Lit (ch "0")) (Range (ch "1") (ch "9")))
 (Alt (Range (ch "1") (ch "9"))
      (Cat (Lit (ch " ")) (Range (ch "1") (ch "9")))))).

(** [1[0-2]|0[1-9]|[1-9]] *)
Definition re_m : regex :=
  Alt (Cat (Lit (ch "1")) (Range (ch "0") (ch "2")))
 (Alt (Cat (Lit (ch "0")) (Range (ch "1") (ch "9")))
      (Range (ch "1") (ch "9"))).

(** [\d\d\d\d] *)
Definition re_Y : regex := Cat Digit (Cat Digit (Cat Digit Digit)).

Definition re_dot : regex := Lit (ch ".").

(** Every way the pattern of the format ["%d.%m.%Y"], that is
    [(?P<d>...)\.(?P<m>...)\.(?P<Y>...)], matches a prefix of the text: the
    groups [d], [m], [Y] and the text left, in the order of the matcher. *)
Definition format_regex_matches (data_string : str)
  : list (str * str * str * str) :=
  flat_map (fun '(d, s1) =>
  flat_map (fun '(_, s2) =>
  flat_map (fun '(m, s3) =>
  flat_map (fun '(_, s4) =>
  map (fun '(Y, s5) => (d, m, Y, s5)) (re_run re_Y s4))
  (re_run re_dot s3)) (re_run re_m s2)) (re_run re_dot s1))
  (re_run re_d data_string).

(** [format_regex.match(data_string)]: the first match, if there is one. *)
Definition format_regex_match (data_string : str)
  : option (str * str * str * str) :=
  head (format_regex_matches data_string).

(** ** Text and numbers *)

(** [s.strip()]: leading and trailing white space removed. *)
Fixpoint str_lstrip (s : str) : str :=
match s with
| c :: s' => if char_isspace c then str_lstrip s' else s
| [] => []
end.

Definition str_strip (s : str) : str := rev (str_lstrip (rev (str_lstrip s))).

(** The value of a decimal digit: its offset in its range, modulo 10. *)
Fixpoint digit_value_in (c : N) (t : list (N * N)) : option Z :=
match t with
| [] => None
| (lo, hi) :: t' =>
    if (lo <=? c)%N && (c <=? hi)%N then Some (Z.of_N ((c - lo) mod 10))
    else digit_value_in c t'
end.

Definition digit_value (c : N) : option Z := digit_value_in c decimal_ranges.

Fixpoint digits_value (acc : Z) (s : str) : option Z :=
match s with
| [] => Some acc
| c :: s' =>
    match digit_value c with
    | Some v => digits_value (10 * acc + v) s'
    | None => None
    end
end.

(** [int(s)] on the texts the program converts: decimal digits, possibly
    surrounded by white space (signs and underscores do not occur in a group
    matched by [format_regex_match]). *)
Definition int (s : str) : outcome Z :=
  match str_strip s with
  | [] => Raise (ValueError (u "invalid literal for int() with base 10"))
  | t => match digits_value 0 t with
         | Some n => Return n
         | None => Raise (ValueError (u "invalid literal for int() with base 10"))
         end
  end.

(** Sequencing of calls that may raise. *)
Definition obind {A B} (o : outcome A) (k : A → outcome B) : outcome B :=
  match o with
  | Return a => k a
  | Raise e => Raise e
  end.

(** [datetime.strptime(data_string, "%d.%m.%Y")].  The texts of the two
    [ValueError]s of a failed match are shortened: they quote the input, and
    the program discards them. *)
Definition strptime (data_string : str) : outcome datetime :=
  match format_regex_match data_string with
  | None => Raise (ValueError (u "time data does not match format"))
  | Some (d, m, Y, rest) =>
      let found_end := len data_string - len rest in
      if negb (len data_string =? found_end)
      then Raise (ValueError (u "unconverted data remains"))
      else
        obind (int Y) (fun y =>
        obind (int m) (fun mo =>
        obind (int d) (fun dd =>
        datetime_new y mo dd 0 0 0 0)))
  end.

(** Decimal text of a number below ten thousand, most significant first. *)
Definition digit_char (n : Z) : N := (0x30 + Z.to_N (n mod 10))%N.

Definition two_digits (n : Z) : str := [digit_char (n / 10); digit_char n].

Fixpoint drop_zeros (s : str) : str :=
match s with
| c :: (_ :: _) as s' => if (c =? 0x30)%N then drop_zeros s' else s
| _ => s
end.

Definition decimal_text (n : Z) : str :=
  drop_zeros [digit_char (n / 1000); digit_char (n / 100);
              digit_char (n / 10); digit_char n].

(** [dt.strftime("%d.%m.%Y")]: day and month on two digits; the year as
    the C library prints it, without padding. *)
Definition strftime (dt : datetime) : str :=
  two_digits (day dt) ++ u "." ++ two_digits (month dt) ++ u "."
  ++ decimal_text (year dt).

Record Birthday := mkBirthday { Birthday_value : datetime }.

(** [Birthday.__init__] *)
Definition Birthday_init (value : str) : outcome Birthday :=
  match strptime value with
  | Return dt => Return (mkBirthday dt)
  | Raise (ValueError _) => Raise (ValueError (u "Invalid date format. Use DD.MM.YYYY"))
  | Raise e => Raise e
  end.

(** ** Calls that mutate an object

    A method is a function of the object's state that yields an outcome and
    the state after the call; a raise keeps the mutations done before it. *)

Definition SE (S A : Type) : Type := S → outcome A * S.

Definition ret {S A} (a : A) : SE S A := fun s => (Return a, s).

Definition raise {S A} (e : exn) : SE S A := fun s => (Raise e, s).

Definition bind {S A B} (c : SE S A) (k : A → SE S B) : SE S B :=
  fun s => match c s with
           | (Return a, s') => k a s'
           | (Raise e, s') => (Raise e, s')
           end.

Definition gets {S A} (f : S → A) : SE S A := fun s => (Return (f s), s).

Definition modify {S} (f : S → S) : SE S unit := fun s => (Return tt, f s).

Definition lift {S A} (o : outcome A) : SE S A := fun s => (o, s).

Notation "x <- c ;; k" := (bind c (fun x => k))
  (at level 100, c at next level, right associativity).
Notation "c ;; k" := (bind c (fun _ => k))
  (at level 100, right associativity).

(** [for x in l: body(x)] *)
Fixpoint for_each {S A} (l : list A) (body : A → SE S unit) : SE S unit :=
match l with
| [] => ret tt
| x :: l' => body x ;; for_each l' body
end.

(** [sep.join(l)] *)
Fixpoint str_join (sep : str) (l : list str) : str :=
match l with
| [] => []
| [x] => x
| x :: l' => x ++ sep ++ str_join sep l'
end.

(** ** Contact record *)

Record RecordObj := mkRecord {
  r_name : Name;
  r_phones : list Phone;
  r_birthday : option Birthday }.

Definition set_phones (f : list Phone → list Phone) (self : RecordObj) : RecordObj :=
  mkRecord (r_name self) (f (r_phones self)) (r_birthday self).

Definition set_birthday (b : option Birthday) (self : RecordObj) : RecordObj :=
  mkRecord (r_name self) (r_phones self) b.

(** [Record.__init__] *)
Definition Record_init (name : str) : RecordObj := mkRecord (mkName name) [] None.

(** [Record.add_birthday] *)
Definition Record_add_birthday (birthday : str) : SE RecordObj unit :=
  self <- gets id ;;
  match r_birthday self with
  | None =>
      b <- lift (Birthday_init birthday) ;;
      modify (set_birthday (Some b))
  | Some _ =>
      raise (ValueError
        (u "Birthday is already set. To change it, use the change_birthday."))
  end.

(** [Record.add_phone] *)
Definition Record_add_phone (phone : str) : SE RecordObj unit :=
  p <- lift (Phone_init phone) ;;
  modify (set_phones (fun phones => phones ++ [p])).

(** The loop of [Record.change_phone] from index [i] on, [rest] being the
    phones not yet visited. *)
Fixpoint change_phone_from (i : nat) (rest : list Phone) (old_phone new_phone : str)
  : SE RecordObj bool :=
match rest with
| [] => raise (ValueError (u "Old phone not found."))
| phone :: rest' =>
    if decide (Phone_value phone = old_phone)
    then p <- lift (Phone_init new_phone) ;;
         modify (set_phones (fun phones => <[i := p]> phones)) ;;
         ret true
    else change_phone_from (S i) rest' old_phone new_phone
end.

(** [Record.change_phone] *)
Definition Record_change_phone (old_phone new_phone : str) : SE RecordObj bool :=
  self <- gets id ;;
  change_phone_from 0 (r_phones self) old_phone new_phone.

(** [Record.show_phones] *)
Definition Record_show_phones (self : RecordObj) : str :=
  str_join (u ", ") (map Phone_value (r_phones self)).

(** ** Address book

    The [dict] behind the book keeps its keys in insertion order; it maps a
    name to the address of a [Record] object in the heap. *)

Fixpoint dict_get {V} (k : str) (d : list (str * V)) : option V :=
match d with
| [] => None
| (k', v) :: d' => if decide (k' = k) then Some v else dict_get k d'
end.

(** [d[k] = v]: the value of an existing key is replaced where it stands, a
    new key goes last. *)
Fixpoint dict_set {V} (k : str) (v : V) (d : list (str * V)) : list (str * V) :=
match d with
| [] => [(k, v)]
| (k', v') :: d' => if decide (k' = k) then (k, v) :: d' else (k', v') :: dict_set k v d'
end.

Record State := mkState {
  heap : list RecordObj;
  book : list (str * nat) }.

Definition set_heap (f : list RecordObj → list RecordObj) (st : State) : State :=
  mkState (f (heap st)) (book st).

Definition set_book (f : list (str * nat) → list (str * nat)) (st : State) : State :=
  mkState (heap st) (f (book st)).

Abbreviation M := (SE State).

(** The object at an address.  Every address the program holds is allocated;
    for any other the result is an empty record. *)
Definition deref (h : list RecordObj) (a : nat) : RecordObj :=
  default (Record_init []) (h !! a).

(** [Record(name)]: a new object. *)
Definition new_Record (name : str) : M nat :=
  fun st => (Return (length (heap st)),
             set_heap (fun h => h ++ [Record_init name]) st).

(** A method call on the object at address [a]. *)
Definition call {A} (a : nat) (method : SE RecordObj A) : M A :=
  fun st => let '(o, r') := method (deref (heap st) a) in
            (o, set_heap (fun h => <[a := r']> h) st).

(** [AddressBook.add_record] *)
Definition AddressBook_add_record (record : nat) : M unit :=
  key <- gets (fun st => Name_value (r_name (deref (heap st) record))) ;;
  modify (set_book (dict_set key record)).

(** The loop of [AddressBook.get_upcoming_birthdays] over the records still
    to visit, [upcoming_birthdays] being the list built so far. *)
Fixpoint upcoming_from (today one_week_later : datetime) (h : list RecordObj)
  (records : list nat) (upcoming_birthdays : list (str * str))
  : outcome (list (str * str)) :=
match records with
| [] => Return upcoming_birthdays
| a :: records' =>
    let record := deref h a in
    match r_birthday record with
    | Some b =>
        obind (datetime_replace_year (Birthday_value b) (year today))
          (fun birthday_this_year =>
             if datetime_le today birthday_this_year
                && datetime_le birthday_this_year one_week_later
             then upcoming_from today one_week_later h records'
                    (upcoming_birthdays ++
                     [(Name_value (r_name record), strftime birthday_this_year)])
             else upcoming_from today one_week_later h records' upcoming_birthdays)
    | None => upcoming_from today one_week_later h records' upcoming_birthdays
    end
end.

(** [AddressBook.get_upcoming_birthdays], [today] being what
    [datetime.now()] returns. *)
Definition AddressBook_get_upcoming_birthdays (today : datetime) (st : State)
  : outcome (list (str * str)) :=
  obind (datetime_add_days today 7) (fun one_week_later =>
  upcoming_from today one_week_later (heap st) (map snd (book st)) []).

(** ** Command layer *)

(** [str(e)]: the message of the exception; for a [KeyError] its [repr],
    which for the one message the program uses (no quote, no backslash) is
    the message between single quotes. *)
Definition str_exn (e : exn) : str :=
  match e with
  | ValueError msg => msg
  | OverflowError msg => msg
  | KeyError msg => u "'" ++ msg ++ u "'"
  end.

(** The decorator [input_error]: [except Exception] catches every exception
    the wrapped function raises and returns its text. *)
Definition input_error {A} (func : A → M str) : A → M str :=
  fun args st =>
    match func args st with
    | (Return m, st') => (Return m, st')
    | (Raise e, st') => (Return (str_exn e), st')
    end.

Definition nl : str := [10%N].

Definition add_contact : list str → M str :=
  input_error (fun args =>
    if len args <? 2
    then raise (ValueError (u "Please enter a name and at least one phone number."))
    else
      let name := hd [] args in
      let phones := tl args in
      fresh <- new_Record name ;;
      found <- gets (fun st => dict_get name (book st)) ;;
      let record := default fresh found in
      for_each phones (fun phone => call record (Record_add_phone phone)) ;;
      AddressBook_add_record record ;;
      ret (u "Contact " ++ name ++ u " added/updated with phone(s): "
           ++ str_join (u "; ") phones ++ u ".")).

Definition change_contact : list str → M str :=
  input_error (fun args =>
    match args with
    | [name; old_phone; new_phone] =>
        found <- gets (fun st => dict_get name (book st)) ;;
        match found with
        | None => raise (KeyError (u "Contact not found."))
        | Some record =>
            call record (Record_change_phone old_phone new_phone) ;;
            ret (u "Contact " ++ name ++ u "'s phone number changed from "
                 ++ old_phone ++ u " to " ++ new_phone ++ u ".")
        end
    | _ => raise (ValueError
             (u "Please enter a name, old phone number, and new phone number."))
    end).

Definition show_phone : list str → M str :=
  input_error (fun args =>
    match args with
    | [name] =>
        found <- gets (fun st => dict_get name (book st)) ;;
        match found with
        | None => raise (KeyError (u "Contact not found."))
        | Some record =>
            phones <- gets (fun st => Record_show_phones (deref (heap st) record)) ;;
            ret (name ++ u ": " ++ phones)
        end
    | _ => raise (ValueError (u "Please enter a name."))
    end).

Definition show_all : unit → M str :=
  input_error (fun _ =>
    st <- gets id ;;
    match book st with
    | [] => ret (u "No contacts found.")
    | items =>
        ret (str_join nl
               (map (fun '(name, record) =>
                       name ++ u ": " ++ Record_show_phones (deref (heap st) record))
                    items))
    end).

Definition add_birthday : list str → M str :=
  input_error (fun args =>
    match args with
    | [name; birthday] =>
        found <- gets (fun st => dict_get name (book st)) ;;
        match found with
        | Some record =>
            call record (Record_add_birthday birthday) ;;
            ret (u "Birthday for " ++ name ++ u " added.")
        | None => ret (u "Contact not found.")
        end
    | _ => raise (ValueError
             (u "Please enter a name and birthday in DD.MM.YYYY format."))
    end).

Definition show_birthday : list str → M str :=
  input_error (fun args =>
    match args with
    | [name] =>
        st <- gets id ;;
        match dict_get name (book st) with
        | Some record =>
            match r_birthday (deref (heap st) record) with
            | Some b => ret (name ++ u "'s birthday is on "
                             ++ strftime (Birthday_value b))
            | None => ret (u "Birthday not found.")
            end
        | None => ret (u "Birthday not found.")
        end
    | _ => raise (ValueError (u "Please enter a name."))
    end).

(** [birthdays(args, book)]; [args] is not used (the loop passes [None]);
    [today] is the clock read by [get_upcoming_birthdays]. *)
Definition birthdays (today : datetime) : option (list str) → M str :=
  input_error (fun _ =>
    upcoming <- (fun st => (AddressBook_get_upcoming_birthdays today st, st)) ;;
    match upcoming with
    | [] => ret (u "No upcoming birthdays next week.")
    | _ => ret (u "Upcoming birthdays:" ++ nl
                ++ str_join nl (map (fun '(name, date) => name ++ u " on " ++ date)
                                    upcoming))
    end).

(** The first [sep] of [s]: the text before it and the text after it. *)
Fixpoint str_partition (sep : N) (s : str) : option (str * str) :=
match s with
| [] => None
| c :: s' =>
    if (c =? sep)%N then Some ([], s')
    else match str_partition sep s' with
         | Some (before, after) => Some (c :: before, after)
         | None => None
         end
end.

(** [s.split(sep, maxsplit)] for a separator of one character. *)
Fixpoint str_split (sep : N) (maxsplit : nat) (s : str) : list str :=
match maxsplit with
| O => [s]
| S n =>
    match str_partition sep s with
    | Some (before, after) => before :: str_split sep n after
    | None => [s]
    end
end.

Definition help_text : str :=
  str_join nl
    [ u "";
      u "Available commands:";
      u "    hello - Greet the user.";
      u "    add [name] [phone...] - Add a new contact or update existing (multiple phones can be added).";
      u "    change [name] [old phone] [new phone] - Change the phone number of an existing contact.";
      u "    phone [name] - Show the phone number(s) of a contact.";
      u "    all - Show all saved contacts.";
      u "    add-birthday [name] [birthday] - Add or update a birthday for a contact.";
      u "    show-birthday [name] - Show the birthday of a contact.";
      u "    birthdays - List upcoming birthdays within the next week.";
      u "    help - Show available commands.";
      u "    close, exit - Exit the program.";
      u "    " ].

(** What one turn of the loop of [main] does: print a text and go on, print
    and leave the loop, or be ended by an exception. *)
Inductive step :=
| Printed (text : str)
| Exited (text : str)
| Crashed (e : exn).

Definition print (r : outcome str * State) : step * State :=
  match r with
  | (Return text, st) => (Printed text, st)
  | (Raise e, st) => (Crashed e, st)
  end.

Section CommandLoop.

(** [str.lower]: the lower-casing of Unicode, a table of the Python runtime,
    is a parameter. *)
Variable lower : str → str.

(** [parse_input]; [split] never returns an empty list, so [parts[0]]
    exists. *)
Definition parse_input (user_input : str) : str * list str :=
  let parts := str_split (ch " ") 2 (str_strip user_input) in
  let command := lower (hd [] parts) in
  let args := if 1 <? len parts then tl parts else [] in
  (command, args).

(** One turn of the loop of [main] on the line read, [now] being the clock.
    Saving the book on [close] and [exit] leaves it as it is. *)
Definition main_step (now : datetime) (user_input : str) (st : State)
  : step * State :=
  let '(command, args) := parse_input user_input in
  if bool_decide (command = u "close") || bool_decide (command = u "exit")
  then (Exited (u "Good bye!"), st)
  else if bool_decide (command = u "hello") then (Printed (u "How can I help you?"), st)
  else if bool_decide (command = u "add") then print (add_contact args st)
  else if bool_decide (command = u "change") then print (change_contact args st)
  else if bool_decide (command = u "phone") then print (show_phone args st)
  else if bool_decide (command = u "all") then print (show_all tt st)
  else if bool_decide (command = u "add-birthday") then print (add_birthday args st)
  else if bool_decide (command = u "show-birthday") then print (show_birthday args st)
  else if bool_decide (command = u "birthdays") then print (birthdays now None st)
  else if bool_decide (command = u "help") then (Printed help_text, st)
  else (Printed (u "Invalid command. Please try again."), st).

End CommandLoop.

(** Lower-casing restricted to ASCII: on a text of ASCII characters it is
    what [str.lower] computes. *)
Definition ascii_lower (s : str) : str :=
  map (fun c => if (0x41 <=? c)%N && (c <=? 0x5a)%N then (c + 32)%N else c) s.

(** ** Notions of the specification *)

(** A text of exactly ten ASCII decimal digits. *)
Definition ten_ascii_digits (s : str) : Prop :=
  length s = 10%nat ∧ Forall (fun c => char_is_ascii_digit c = true) s.

(** A text of exactly ten digit characters of Unicode. *)
Definition ten_unicode_digits (s : str) : Prop :=
  length s = 10%nat ∧ Forall (fun c => char_isdigit c = true) s.

(** The Arabic-Indic digits one to nine and zero. *)
Definition arabic_indic_phone : str :=
  [0x661; 0x662; 0x663; 0x664; 0x665; 0x666; 0x667; 0x668; 0x669; 0x660]%N.

(** The same method called on the same object with each argument in turn:
    the outcomes, and the object after the last call. *)
Fixpoint calls {S A} (method : str → SE S A) (args : list str) (self : S)
  : list (outcome A) * S :=
match args with
| [] => ([], self)
| arg :: args' =>
    let '(o, self') := method arg self in
    let '(os, self'') := calls method args' self' in
    (o :: os, self'')
end.

Definition already_set : exn :=
  ValueError (u "Birthday is already set. To change it, use the change_birthday.").

Definition old_phone_not_found : exn := ValueError (u "Old phone not found.").

Definition phone_format_error : exn := ValueError (u "Phone number must be 10 digits").

Definition arity_of_change : str :=
  u "Please enter a name, old phone number, and new phone number.".

(** The number of entries of a dictionary under a key. *)
Fixpoint count_key {V} (k : str) (d : list (str * V)) : nat :=
match d with
| [] => 0%nat
| (k', _) :: d' => ((if decide (k' = k) then 1 else 0) + count_key k d')%nat
end.

(** A state the program can be in: the keys of the book are distinct, and
    each is the name of the record it refers to, which is allocated. *)
Definition wf_state (st : State) : Prop :=
  NoDup (map fst (book st))
  ∧ Forall (fun e => ∃ r, heap st !! e.2 = Some r ∧ Name_value (r_name r) = e.1)
           (book st).

(** What the book holds: each name with the record it refers to. *)
Definition contents (st : State) : list (str * RecordObj) :=
  map (fun e => (e.1, deref (heap st) e.2)) (book st).

(** The phones recorded under a name, none when the name is unknown. *)
Definition phones_of (name : str) (st : State) : list Phone :=
  match dict_get name (book st) with
  | Some a => r_phones (deref (heap st) a)
  | None => []
  end.

(** The phones built from the texts that come before the first rejected
    one. *)
Fixpoint accepted_prefix (phones : list str) : list Phone :=
match phones with
| [] => []
| phone :: phones' =>
    match Phone_init phone with
    | Return p => p :: accepted_prefix phones'
    | Raise _ => []
    end
end.

(** Whether [Phone.__init__] accepts a text. *)
Definition accepts (phone : str) : bool :=
  match Phone_init phone with
  | Return _ => true
  | Raise _ => false
  end.

Definition added_message (name : str) (phones : list str) : str :=
  u "Contact " ++ name ++ u " added/updated with phone(s): "
  ++ str_join (u "; ") phones ++ u ".".

(** The records of the book, in the order of the book. *)
Definition records (st : State) : list RecordObj :=
  map (fun e => deref (heap st) e.2) (book st).

(** The occurrence of a birthday in the year of the reference instant: the
    birthday with its year replaced. *)
Definition occurrence (b reference : datetime) : datetime :=
  mkDatetime (year reference) (month b) (day b)
             (hour b) (minute b) (second b) (microsecond b).

(** The reference instant moved by [n] days. *)
Definition plus_days (reference : datetime) (n : Z) : datetime :=
  let '(y, m, d) :=
    ord2ymd (ymd2ord (year reference) (month reference) (day reference) + n) in
  mkDatetime y m d (hour reference) (minute reference) (second reference)
             (microsecond reference).

(** [reference <= occ <= reference + 7 days] *)
Definition in_window (reference occ : datetime) : bool :=
  datetime_le reference occ && datetime_le occ (plus_days reference 7).

(** The entry of a record in the list of upcoming birthdays, if it has one:
    the record has a birthday and its occurrence is in the window. *)
Definition upcoming_entry (reference : datetime) (r : RecordObj)
  : option (str * str) :=
  match r_birthday r with
  | Some b =>
      let occ := occurrence (Birthday_value b) reference in
      if in_window reference occ
      then Some (Name_value (r_name r), strftime occ)
      else None
  | None => None
  end.

(** The list the specification describes: the entries of the records that
    have one. *)
Definition upcoming_spec (reference : datetime) (rs : list RecordObj)
  : list (str * str) :=
  omap (upcoming_entry reference) rs.

(** The occurrence of every birthday of the book exists in the year of the
    reference instant. *)
Definition occurrences_defined (reference : datetime) (st : State) : Prop :=
  Forall (fun r => ∀ b, r_birthday r = Some b →
                        is_return (datetime_replace_year (Birthday_value b)
                                                         (year reference)))
         (records st).

Definition born (y m d : Z) : option Birthday :=
  Some (mkBirthday (mkDatetime y m d 0 0 0 0)).

(** Three contacts, born on 5 June, 15 June and 30 May 2000. *)
Definition june_book : State :=
  mkState [ mkRecord (mkName (u "Ann")) [] (born 2000 6 5);
            mkRecord (mkName (u "Ben")) [] (born 2000 6 15);
            mkRecord (mkName (u "Cid")) [] (born 2000 5 30) ]
          [ (u "Ann", 0%nat); (u "Ben", 1%nat); (u "Cid", 2%nat) ].

(** A contact born on 5 June 2000 and one born on 29 February 2000. *)
Definition leap_day_book : State :=
  mkState [ mkRecord (mkName (u "Ann")) [] (born 2000 6 5);
            mkRecord (mkName (u "Bob")) [] (born 2000 2 29) ]
          [ (u "Ann", 0%nat); (u "Bob", 1%nat) ].

(** A contact born on 30 December 2000. *)
Definition december_book : State :=
  mkState [ mkRecord (mkName (u "Eve")) [] (born 2000 12 30) ]
          [ (u "Eve", 0%nat) ].

(** The texts a regular expression denotes. *)
Inductive re_lang : regex → str → Prop :=
| lang_Lit (c : N) : re_lang (Lit c) [c]
| lang_Range (lo hi c : N) :
    (lo <=? c)%N && (c <=? hi)%N = true → re_lang (Range lo hi) [c]
| lang_Digit (c : N) : char_isdecimal c = true → re_lang Digit [c]
| lang_Cat (r1 r2 : regex) (s1 s2 : str) :
    re_lang r1 s1 → re_lang r2 s2 → re_lang (Cat r1 r2) (s1 ++ s2)
| lang_Alt_l (r1 r2 : regex) (s : str) : re_lang r1 s → re_lang (Alt r1 r2) s
| lang_Alt_r (r1 r2 : regex) (s : str) : re_lang r2 s → re_lang (Alt r1 r2) s.

(** No text of the expression holds the character [c]. *)
Fixpoint re_excludes (c : N) (r : regex) : bool :=
match r with
| Lit c' => negb (c' =? c)%N
| Range lo hi => negb ((lo <=? c)%N && (c <=? hi)%N)
| Digit => negb (char_isdecimal c)
| Cat r1 r2 => re_excludes c r1 && re_excludes c r2
| Alt r1 r2 => re_excludes c r1 && re_excludes c r2
end.

(** A date of the calendar: the test of the [datetime] constructor. *)
Definition valid_date (y m d : Z) : bool :=
  ((MINYEAR <=? y) && (y <=? MAXYEAR))
  && ((1 <=? m) && (m <=? 12))
  && ((1 <=? d) && (d <=? days_in_month y m)).

Definition ascii_digit_value (c : N) : Z := Z.of_N c - 48.

(** The year, month and day written by a text of the form DD.MM.YYYY: two
    ASCII digits, a dot, two ASCII digits, a dot, four ASCII digits. *)
Definition read_DD_MM_YYYY (s : str) : option (Z * Z * Z) :=
  match s with
  | [d1; d2; p; m1; m2; q; y1; y2; y3; y4] =>
      if (p =? ch ".")%N && (q =? ch ".")%N
         && forallb char_is_ascii_digit [d1; d2; m1; m2; y1; y2; y3; y4]
      then
        let v := ascii_digit_value in
        Some (1000 * v y1 + 100 * v y2 + 10 * v y3 + v y4,
              10 * v m1 + v m2,
              10 * v d1 + v d2)
      else None
  | _ => None
  end.

(** A text in the format DD.MM.YYYY that denotes a date of the calendar. *)
Definition DD_MM_YYYY_date (s : str) : Prop :=
  ∃ y m d, read_DD_MM_YYYY s = Some (y, m, d) ∧ valid_date y m d = true.

Definition invalid_date_format : exn :=
  ValueError (u "Invalid date format. Use DD.MM.YYYY").

(** ** Further notions *)

(** The [while True] loop of [main] on the lines typed, each with the clock
    at the time it is handled.  The loop ends on [close] or [exit], on an
    exception, or, here, when the lines are used up.  The book at the start
    is [st] (in [main], what [load_data] returned). *)
Fixpoint main_loop (lower : str → str) (inputs : list (datetime * str))
  (st : State) : list step * State :=
match inputs with
| [] => ([], st)
| (now, user_input) :: inputs' =>
    match main_step lower now user_input st with
    | (Printed text, st') =>
        let '(out, st'') := main_loop lower inputs' st' in
        (Printed text :: out, st'')
    | (Exited text, st') => ([Exited text], st')
    | (Crashed e, st') => ([Crashed e], st')
    end
end.

(** The record the book holds under a name. *)
Definition record_of (name : str) (st : State) : option RecordObj :=
  option_map (deref (heap st)) (dict_get name (book st)).

(** A birthday as [Birthday.__init__] builds it: a date of the calendar, at
    midnight. *)
Definition valid_birthday (b : Birthday) : Prop :=
  let dt := Birthday_value b in
  valid_date (year dt) (month dt) (day dt) = true
  ∧ hour dt = 0 ∧ minute dt = 0 ∧ second dt = 0 ∧ microsecond dt = 0.

(** The fields of a record are values their constructors accept. *)
Definition fields_valid (r : RecordObj) : Prop :=
  Forall (fun p => ten_unicode_digits (Phone_value p)) (r_phones r)
  ∧ ∀ b, r_birthday r = Some b → valid_birthday b.

(** What a command about [name] may do to the state: allocate objects, put
    one object, under the same name and with valid fields if it had them, in
    place of the one [name] refers to or of a new one, and bind [name] to
    it. *)
Definition command_effect (name : str) (st st' : State) : Prop :=
  ∃ extra a r r',
    heap st' = <[a := r']> (heap st ++ extra)
    ∧ Forall fields_valid extra
    ∧ (heap st ++ extra) !! a = Some r
    ∧ r_name r' = r_name r
    ∧ (fields_valid r → fields_valid r')
    ∧ ((a < length (heap st))%nat → dict_get name (book st) = Some a)
    ∧ (book st' = book st
       ∨ (book st' = dict_set name a (book st) ∧ Name_value (r_name r') = name)).

(** A time of day after midnight. *)
Definition after_midnight (dt : datetime) : Prop :=
  0 <= hour dt ∧ 0 <= minute dt ∧ 0 <= second dt ∧ 0 <= microsecond dt
  ∧ 0 < hour dt + minute dt + second dt + microsecond dt.

(** * Proofs *)

(** ** Phone numbers *)

Lemma forallb_Forall_true {A} (p : A → bool) (l : list A) :
  forallb p l = true ↔ Forall (fun x => p x = true) l.
Proof.
  induction l as [|x l IH]; simpl.
  - split; [constructor | reflexivity].
  - rewrite andb_true_iff, IH, Forall_cons. reflexivity.
Qed.

Lemma str_isdigit_true (s : str) :
  str_isdigit s = true ↔ s ≠ [] ∧ Forall (fun c => char_isdigit c = true) s.
Proof.
  destruct s as [|c s].
  - simpl. split; [discriminate | intros [H _]; congruence].
  - unfold str_isdigit. rewrite forallb_Forall_true. split.
    + intros H. split; [discriminate | exact H].
    + intros [_ H]. exact H.
Qed.

Lemma len_eqb_10 {A} (l : list A) : (len l =? 10) = true ↔ length l = 10%nat.
Proof. unfold len. rewrite Z.eqb_eq. lia. Qed.

Lemma Phone_init_cases (s : str) :
  (ten_unicode_digits s ∧ Phone_init s = Return (mkPhone s))
  ∨ (¬ ten_unicode_digits s ∧ Phone_init s = Raise phone_format_error).
Proof.
  unfold Phone_init, ten_unicode_digits.
  destruct (str_isdigit s) eqn:Hd; destruct (len s =? 10) eqn:Hl; simpl.
  - left. apply str_isdigit_true in Hd. apply len_eqb_10 in Hl. tauto.
  - right. split; [|reflexivity]. intros [H _].
    apply len_eqb_10 in H. congruence.
  - right. split; [|reflexivity]. intros [H1 H2].
    assert (str_isdigit s = true); [|congruence].
    apply str_isdigit_true. split; [|exact H2]. intros ->. discriminate.
  - right. split; [|reflexivity]. intros [H _].
    apply len_eqb_10 in H. congruence.
Qed.

Lemma ascii_digit_isdigit (c : N) :
  char_is_ascii_digit c = true → char_isdigit c = true.
Proof.
  unfold char_is_ascii_digit, char_isdigit. intros H.
  unfold decimal_ranges. simpl in_ranges at 1.
  change (0x30 <=? c)%N with (48 <=? c)%N in H.
  change (c <=? 0x39)%N with (c <=? 57)%N in H.
  rewrite H. reflexivity.
Qed.

Lemma ten_ascii_digits_unicode (s : str) :
  ten_ascii_digits s → ten_unicode_digits s.
Proof.
  intros [Hl Hd]. split; [exact Hl|].
  eapply Forall_impl; [exact Hd|]. intros c. apply ascii_digit_isdigit.
Qed.

(** C3, as stated, fails: the ten Arabic-Indic digits are accepted as a
    phone number although none of them is an ASCII digit. *)
Lemma C3_unicode_digits_accepted :
  ¬ (is_return (Phone_init arabic_indic_phone)
     ↔ ten_ascii_digits arabic_indic_phone).
Proof.
  intros [H _].
  assert (Ha : is_return (Phone_init arabic_indic_phone)).
  { eexists. vm_compute. reflexivity. }
  destruct (H Ha) as [_ Hd]. inversion Hd as [|c l Hc _]; subst.
  vm_compute in Hc. discriminate.
Qed.

(** C3 (amended): [Phone.__init__] succeeds if and only if the text has
    exactly ten characters, each a digit in the sense of [str.isdigit]
    (the ASCII digits and the other digit characters of Unicode); every
    text of ten ASCII digits is accepted, and every other outcome is the
    format error. *)
Theorem C3_Phone_init_accepts_ten_digits (s : str) :
  (is_return (Phone_init s) ↔ ten_unicode_digits s)
  ∧ (ten_ascii_digits s → Phone_init s = Return (mkPhone s))
  ∧ (¬ ten_unicode_digits s → Phone_init s = Raise phone_format_error).
Proof.
  destruct (Phone_init_cases s) as [[Hv He]|[Hv He]]; rewrite He.
  - split; [|split].
    + split; [intros _; exact Hv | intros _; eexists; reflexivity].
    + reflexivity.
    + intros H. contradiction.
  - split; [|split].
    + split; [intros [p Hp]; discriminate | intros H; contradiction].
    + intros H. apply ten_ascii_digits_unicode in H. contradiction.
    + reflexivity.
Qed.

Lemma C3_Phone_init_witness :
  ten_ascii_digits (u "1234567890")
  ∧ Phone_init (u "1234567890") = Return (mkPhone (u "1234567890")).
Proof.
  assert (H : ten_ascii_digits (u "1234567890")).
  { split; [reflexivity|]. repeat constructor. }
  split; [exact H|].
  exact (proj1 (proj2 (C3_Phone_init_accepts_ten_digits (u "1234567890"))) H).
Defined.

(** ** Birthday of a record *)

Lemma add_birthday_unset (self : RecordObj) (text : str) :
  r_birthday self = None →
  Record_add_birthday text self =
    match Birthday_init text with
    | Return b => (Return tt, set_birthday (Some b) self)
    | Raise e => (Raise e, self)
    end.
Proof.
  intros H. unfold Record_add_birthday, bind, gets, lift, modify, id.
  rewrite H. destruct (Birthday_init text); reflexivity.
Qed.

Lemma add_birthday_set (self : RecordObj) (text : str) (b : Birthday) :
  r_birthday self = Some b →
  Record_add_birthday text self = (Raise already_set, self).
Proof.
  intros H. unfold Record_add_birthday, bind, gets, raise, id.
  rewrite H. reflexivity.
Qed.

(** C7: on a record without a birthday, [add_birthday] with a valid date
    sets it; every later call on that record, whatever its argument, raises
    the already-set error and leaves the record, and so the first birthday,
    as it was. *)
Theorem C7_birthday_is_set_once
  (self : RecordObj) (first : str) (b : Birthday) (later : list str) :
  r_birthday self = None →
  Birthday_init first = Return b →
  Record_add_birthday first self = (Return tt, set_birthday (Some b) self)
  ∧ r_birthday (set_birthday (Some b) self) = Some b
  ∧ calls Record_add_birthday later (set_birthday (Some b) self)
    = (map (fun _ => Raise already_set) later, set_birthday (Some b) self).
Proof.
  intros Hnone Hb. split; [|split].
  - rewrite add_birthday_unset by exact Hnone. rewrite Hb. reflexivity.
  - reflexivity.
  - induction later as [|t later IH]; [reflexivity|].
    cbn [calls]. rewrite (add_birthday_set _ t b) by reflexivity.
    rewrite IH. reflexivity.
Qed.

Lemma C7_birthday_is_set_once_witness :
  let self := Record_init (u "Alice") in
  let b := mkBirthday (mkDatetime 2000 6 5 0 0 0 0) in
  Record_add_birthday (u "05.06.2000") self = (Return tt, set_birthday (Some b) self)
  ∧ r_birthday (set_birthday (Some b) self) = Some b
  ∧ calls Record_add_birthday [u "01.01.1999"; u "tomorrow"] (set_birthday (Some b) self)
    = ([Raise already_set; Raise already_set], set_birthday (Some b) self).
Proof.
  intros self b.
  apply (C7_birthday_is_set_once self (u "05.06.2000") b
           [u "01.01.1999"; u "tomorrow"]).
  - reflexivity.
  - vm_compute. reflexivity.
Defined.

(** ** Changing a phone *)

Lemma change_phone_replace (self : RecordObj) (i : nat) (new_phone : str) :
  (p <- lift (Phone_init new_phone) ;;
   modify (set_phones (fun phones => <[i := p]> phones)) ;;
   ret true) self =
  match Phone_init new_phone with
  | Return q => (Return true, set_phones (fun phones => <[i := q]> phones) self)
  | Raise e => (Raise e, self)
  end.
Proof.
  unfold bind, lift, modify, ret. destruct (Phone_init new_phone); reflexivity.
Qed.

Lemma change_phone_from_missing (self : RecordObj) (old_phone new_phone : str)
  (rest : list Phone) (i : nat) :
  Forall (fun x => Phone_value x ≠ old_phone) rest →
  change_phone_from i rest old_phone new_phone self = (Raise old_phone_not_found, self).
Proof.
  intros H. revert i. induction H as [|x rest Hx _ IH]; intros i; simpl.
  - reflexivity.
  - destruct (decide (Phone_value x = old_phone)); [contradiction|]. apply IH.
Qed.

Lemma change_phone_from_found (self : RecordObj) (old_phone new_phone : str)
  (before : list Phone) (p : Phone) (after : list Phone) :
  Phone_value p = old_phone →
  Forall (fun x => Phone_value x ≠ old_phone) before →
  ∀ visited : list Phone,
  r_phones self = visited ++ before ++ p :: after →
  change_phone_from (length visited) (before ++ p :: after) old_phone new_phone self =
  match Phone_init new_phone with
  | Return q =>
      (Return true, set_phones (fun _ => visited ++ before ++ q :: after) self)
  | Raise e => (Raise e, self)
  end.
Proof.
  intros Hp Hb. induction Hb as [|x before Hx _ IH]; intros visited Hself.
  - simpl. destruct (decide (Phone_value p = old_phone)); [|contradiction].
    rewrite change_phone_replace. destruct (Phone_init new_phone); [|reflexivity].
    unfold set_phones. simpl in Hself. rewrite Hself.
    rewrite insert_app_r_alt by lia. rewrite Nat.sub_diag. reflexivity.
  - simpl. destruct (decide (Phone_value x = old_phone)); [contradiction|].
    specialize (IH (visited ++ [x])).
    rewrite length_app in IH. simpl in IH.
    replace (length visited + 1)%nat with (S (length visited)) in IH by lia.
    rewrite IH.
    + destruct (Phone_init new_phone); [|reflexivity].
      rewrite <- app_assoc. reflexivity.
    + rewrite Hself, <- app_assoc. reflexivity.
Qed.

(** C8: [change_phone] scans the phones for the first one whose value equals
    [old_phone]; when there is one it is replaced, where it stands, by the
    phone built from [new_phone]: the phones of the record after the call
    are those before the match, the new phone, and those after the match
    (later phones with the same value are kept), its name and birthday are
    as before; or the format error of [new_phone] is raised and the record is
    unchanged; when there is none the not-found error is raised and the
    record is unchanged. *)
Theorem C8_change_phone_first_match
  (self : RecordObj) (old_phone new_phone : str) :
  (∀ before p after,
     r_phones self = before ++ p :: after →
     Phone_value p = old_phone →
     Forall (fun x => Phone_value x ≠ old_phone) before →
     (∀ q, Phone_init new_phone = Return q →
           q = mkPhone new_phone
           ∧ Record_change_phone old_phone new_phone self
             = (Return true,
                mkRecord (r_name self) (before ++ q :: after) (r_birthday self))
           ∧ r_phones (snd (Record_change_phone old_phone new_phone self))
             = before ++ mkPhone new_phone :: after
           ∧ map Phone_value
                 (r_phones (snd (Record_change_phone old_phone new_phone self)))
             = map Phone_value before ++ new_phone :: map Phone_value after)
     ∧ (∀ e, Phone_init new_phone = Raise e →
             Record_change_phone old_phone new_phone self = (Raise e, self)))
  ∧ (Forall (fun x => Phone_value x ≠ old_phone) (r_phones self) →
     Record_change_phone old_phone new_phone self = (Raise old_phone_not_found, self)).
Proof.
  split.
  - intros before p after Hself Hp Hb.
    assert (H := change_phone_from_found self old_phone new_phone
                   before p after Hp Hb [] Hself).
    unfold Record_change_phone, bind, gets, id. rewrite Hself.
    simpl in H. rewrite H. split.
    + intros q Hq. rewrite Hq. unfold set_phones. cbn [snd r_phones].
      assert (Hnew : q = mkPhone new_phone).
      { destruct (Phone_init_cases new_phone) as [[_ He]|[_ He]];
          rewrite He in Hq; [injection Hq as <-; reflexivity | discriminate]. }
      split; [exact Hnew|]. split; [reflexivity|]. subst q.
      split; [reflexivity|]. rewrite map_app. reflexivity.
    + intros e He. rewrite He. reflexivity.
  - intros H. unfold Record_change_phone, bind, gets, id.
    apply change_phone_from_missing. exact H.
Qed.

Lemma C8_change_phone_first_match_witness :
  let p1 := mkPhone (u "1111111111") in
  let p2 := mkPhone (u "2222222222") in
  let self := mkRecord (mkName (u "Alice")) [p1; p2; p1] None in
  (p2 = mkPhone (u "2222222222")
   ∧ Record_change_phone (u "1111111111") (u "2222222222") self
     = (Return true, mkRecord (mkName (u "Alice")) ([] ++ p2 :: [p2; p1]) None)
   ∧ r_phones (snd (Record_change_phone (u "1111111111") (u "2222222222") self))
     = [] ++ mkPhone (u "2222222222") :: [p2; p1]
   ∧ map Phone_value
         (r_phones (snd (Record_change_phone (u "1111111111") (u "2222222222") self)))
     = map Phone_value [] ++ u "2222222222" :: map Phone_value [p2; p1])
  ∧ Record_change_phone (u "1111111111") (u "12345") self
    = (Raise phone_format_error, self)
  ∧ Record_change_phone (u "9999999999") (u "2222222222") self
    = (Raise old_phone_not_found, self).
Proof.
  intros p1 p2 self. split; [|split].
  - apply (proj1 (proj1 (C8_change_phone_first_match self (u "1111111111")
                           (u "2222222222"))
                    [] p1 [p2; p1] eq_refl eq_refl (Forall_nil_2 _)) p2).
    vm_compute. reflexivity.
  - apply (proj1 (C8_change_phone_first_match self (u "1111111111") (u "12345"))
             [] p1 [p2; p1]); [reflexivity | reflexivity | constructor |].
    vm_compute. reflexivity.
  - apply (proj2 (C8_change_phone_first_match self (u "9999999999") (u "2222222222"))).
    repeat constructor; vm_compute; discriminate.
Defined.

(** ** The error adapter *)

Lemma input_error_returns {A} (func : A → M str) (args : A) (st : State) :
  is_return (fst (input_error func args st)).
Proof.
  unfold input_error. destruct (func args st) as [[m|e] st']; eexists; reflexivity.
Qed.

Lemma print_input_error {A} (func : A → M str) (args : A) (st : State) (e : exn) :
  fst (print (input_error func args st)) ≠ Crashed e.
Proof.
  unfold input_error. destruct (func args st) as [[m|e'] st']; discriminate.
Qed.

Lemma show_phone_unknown (name : str) (st : State) :
  dict_get name (book st) = None →
  show_phone [name] st = (Return (u "'Contact not found.'"), st).
Proof.
  intros H. unfold show_phone, input_error, bind, gets, raise. rewrite H.
  reflexivity.
Qed.

(** C2: each wrapped handler returns a message, whatever its arguments and
    the store: no exception passes the adapter; [show_phone] on a name that
    is not in the store returns the not-found message. *)
Theorem C2_handlers_return_a_message
  (args : list str) (st : State) (today : datetime) (name : str) :
  is_return (fst (add_contact args st))
  ∧ is_return (fst (change_contact args st))
  ∧ is_return (fst (show_phone args st))
  ∧ is_return (fst (show_all tt st))
  ∧ is_return (fst (add_birthday args st))
  ∧ is_return (fst (show_birthday args st))
  ∧ is_return (fst (birthdays today (Some args) st))
  ∧ is_return (fst (birthdays today None st))
  ∧ (dict_get name (book st) = None →
     show_phone [name] st = (Return (u "'Contact not found.'"), st)).
Proof.
  repeat (split; [apply input_error_returns|]).
  apply show_phone_unknown.
Qed.

Lemma C2_handlers_return_a_message_witness :
  show_phone [u "NoSuchName"] (mkState [Record_init (u "Alice")] [(u "Alice", 0%nat)])
  = (Return (u "'Contact not found.'"),
     mkState [Record_init (u "Alice")] [(u "Alice", 0%nat)]).
Proof.
  apply (C2_handlers_return_a_message [] _ (mkDatetime 2024 6 1 0 0 0 0)
           (u "NoSuchName")).
  vm_compute. reflexivity.
Defined.

(** No turn of the command loop is ended by an exception. *)
Lemma main_step_never_crashes
  (lower : str → str) (now : datetime) (line : str) (st : State) (e : exn) :
  fst (main_step lower now line st) ≠ Crashed e.
Proof.
  unfold main_step. destruct (parse_input lower line) as [command args].
  repeat match goal with
  | |- context [if ?b then _ else _] => destruct b
  end; try (simpl; discriminate); apply print_input_error.
Qed.

(** ** The command line *)

Lemma str_split_length (sep : N) (maxsplit : nat) (s : str) :
  (length (str_split sep maxsplit s) <= S maxsplit)%nat.
Proof.
  revert s. induction maxsplit as [|n IH]; intros s; simpl.
  - lia.
  - destruct (str_partition sep s) as [[before after]|]; simpl.
    + specialize (IH after). lia.
    + lia.
Qed.

Lemma parse_input_at_most_two_args (lower : str → str) (line : str) :
  (length (snd (parse_input lower line)) <= 2)%nat.
Proof.
  unfold parse_input.
  generalize (str_split_length (ch " ") 2 (str_strip line)).
  generalize (str_split (ch " ") 2 (str_strip line)). intros parts H.
  cbv zeta. cbn [snd].
  destruct (1 <? len parts); [|simpl; lia].
  destruct parts as [|p parts]; simpl in *; lia.
Qed.

Lemma change_contact_arity (args : list str) (st : State) :
  length args ≠ 3%nat →
  change_contact args st = (Return arity_of_change, st).
Proof.
  intros H. destruct args as [|a [|b [|c [|d args]]]]; try reflexivity.
  simpl in H. congruence.
Qed.

(** C1 (what the program does): whatever line is typed, when it is read as
    the [change] command the handler receives at most two arguments, because
    [parse_input] splits at most twice; the handler asks for three, so it
    answers with its arity message and the store stays as it is. *)
Theorem C1_change_through_parse_input_is_refused
  (lower : str → str) (now : datetime) (line : str) (st : State) :
  fst (parse_input lower line) = u "change" →
  main_step lower now line st = (Printed arity_of_change, st).
Proof.
  intros H. unfold main_step.
  pose proof (parse_input_at_most_two_args lower line) as Hlen.
  destruct (parse_input lower line) as [command args].
  simpl in H, Hlen. subst command.
  change (bool_decide (u "change" = u "close")) with false.
  change (bool_decide (u "change" = u "exit")) with false.
  change (bool_decide (u "change" = u "hello")) with false.
  change (bool_decide (u "change" = u "add")) with false.
  change (bool_decide (u "change" = u "change")) with true.
  cbn [orb]. rewrite change_contact_arity by lia. reflexivity.
Qed.

Lemma C1_change_through_parse_input_is_refused_witness :
  let st := mkState [mkRecord (mkName (u "Alice")) [mkPhone (u "1111111111")] None]
                    [(u "Alice", 0%nat)] in
  main_step ascii_lower (mkDatetime 2024 6 1 12 0 0 0)
            (u "change Alice 1111111111 2222222222") st
  = (Printed arity_of_change, st).
Proof.
  intros st.
  apply (C1_change_through_parse_input_is_refused ascii_lower).
  vm_compute. reflexivity.
Defined.

(** The handler itself, given the three arguments, does change the phone. *)
Lemma change_contact_direct :
  let st := mkState [mkRecord (mkName (u "Alice")) [mkPhone (u "1111111111")] None]
                    [(u "Alice", 0%nat)] in
  change_contact [u "Alice"; u "1111111111"; u "2222222222"] st
  = (Return (u "Contact Alice's phone number changed from 1111111111 to 2222222222."),
     mkState [mkRecord (mkName (u "Alice")) [mkPhone (u "2222222222")] None]
             [(u "Alice", 0%nat)]).
Proof. vm_compute. reflexivity. Qed.

(** ** The dictionary of the book *)

Lemma dict_get_None {V} (k : str) (d : list (str * V)) :
  dict_get k d = None ↔ k ∉ map fst d.
Proof.
  induction d as [|[k' v] d IH]; simpl.
  - split; [intros _; apply not_elem_of_nil | reflexivity].
  - rewrite not_elem_of_cons. destruct (decide (k' = k)) as [->|Hne].
    + split; [discriminate | intros [H _]; congruence].
    + rewrite IH. split; [intros H; split; [congruence | exact H] | tauto].
Qed.

Lemma dict_get_Some_elem {V} (k : str) (v : V) (d : list (str * V)) :
  dict_get k d = Some v → (k, v) ∈ d.
Proof.
  induction d as [|[k' v'] d IH]; simpl; [discriminate|].
  destruct (decide (k' = k)) as [->|Hne].
  - intros [= ->]. apply list_elem_of_here.
  - intros H. apply list_elem_of_further, IH, H.
Qed.

Lemma dict_set_new {V} (k : str) (v : V) (d : list (str * V)) :
  dict_get k d = None → dict_set k v d = d ++ [(k, v)].
Proof.
  induction d as [|[k' v'] d IH]; simpl; [reflexivity|].
  destruct (decide (k' = k)); [discriminate|]. intros H. rewrite IH by exact H.
  reflexivity.
Qed.

Lemma dict_set_same {V} (k : str) (v : V) (d : list (str * V)) :
  dict_get k d = Some v → dict_set k v d = d.
Proof.
  induction d as [|[k' v'] d IH]; simpl; [discriminate|].
  destruct (decide (k' = k)) as [->|Hne].
  - intros [= ->]. reflexivity.
  - intros H. rewrite IH by exact H. reflexivity.
Qed.

Lemma dict_get_app_new {V} (k : str) (v : V) (d : list (str * V)) :
  dict_get k d = None → dict_get k (d ++ [(k, v)]) = Some v.
Proof.
  induction d as [|[k' v'] d IH]; simpl.
  - intros _. destruct (decide (k = k)); [reflexivity | congruence].
  - destruct (decide (k' = k)); [discriminate | exact IH].
Qed.

Lemma count_key_absent {V} (k : str) (d : list (str * V)) :
  k ∉ map fst d → count_key k d = 0%nat.
Proof.
  induction d as [|[k' v'] d IH]; simpl; [reflexivity|].
  rewrite not_elem_of_cons. intros [Hne H].
  destruct (decide (k' = k)); [congruence|]. rewrite IH by exact H. reflexivity.
Qed.

Lemma count_key_app {V} (k : str) (d1 d2 : list (str * V)) :
  count_key k (d1 ++ d2) = (count_key k d1 + count_key k d2)%nat.
Proof.
  induction d1 as [|[k' v'] d1 IH]; simpl; [reflexivity|]. rewrite IH. lia.
Qed.

Lemma count_key_present {V} (k : str) (d : list (str * V)) :
  NoDup (map fst d) → k ∈ map fst d → count_key k d = 1%nat.
Proof.
  induction d as [|[k' v'] d IH]; simpl.
  - intros _ H. apply elem_of_nil in H. contradiction.
  - rewrite NoDup_cons, elem_of_cons. intros [Hnotin Hnd] Hin.
    destruct (decide (k' = k)) as [->|Hne].
    + rewrite count_key_absent by exact Hnotin. reflexivity.
    + destruct Hin as [->|Hin]; [congruence|]. rewrite IH by assumption.
      reflexivity.
Qed.

(** ** Adding a contact *)

Lemma set_phones_nil (r : RecordObj) : set_phones (fun ps => ps ++ []) r = r.
Proof. destruct r. unfold set_phones. simpl. rewrite app_nil_r. reflexivity. Qed.

Lemma call_add_phone (a : nat) (phone : str) (h : list RecordObj) (bk : list (str * nat))
  (r : RecordObj) :
  h !! a = Some r →
  call a (Record_add_phone phone) (mkState h bk) =
  match Phone_init phone with
  | Return p => (Return tt, mkState (<[a := set_phones (fun ps => ps ++ [p]) r]> h) bk)
  | Raise e => (Raise e, mkState h bk)
  end.
Proof.
  intros H. unfold call, deref. simpl heap. rewrite H. simpl default.
  unfold Record_add_phone, bind, lift, modify.
  destruct (Phone_init phone); unfold set_heap; simpl.
  - reflexivity.
  - rewrite list_insert_id by exact H. reflexivity.
Qed.

Lemma for_each_add_phone (phones : list str) (a : nat) :
  ∀ (h : list RecordObj) (bk : list (str * nat)) (r : RecordObj),
  h !! a = Some r →
  for_each phones (fun phone => call a (Record_add_phone phone)) (mkState h bk) =
  (if forallb accepts phones then Return tt else Raise phone_format_error,
   mkState (<[a := set_phones (fun ps => ps ++ accepted_prefix phones) r]> h) bk).
Proof.
  induction phones as [|phone phones IH]; intros h bk r H.
  - simpl. rewrite set_phones_nil, list_insert_id by exact H. reflexivity.
  - cbn [for_each forallb accepted_prefix]. unfold bind at 1.
    rewrite (call_add_phone a phone h bk r H). unfold accepts at 1.
    destruct (Phone_init_cases phone) as [[_ He]|[_ He]]; rewrite He.
    + rewrite (IH _ bk (set_phones (fun ps => ps ++ [mkPhone phone]) r)).
      * rewrite list_insert_insert_eq. simpl andb.
        unfold set_phones. simpl. rewrite <- app_assoc. reflexivity.
      * apply list_lookup_insert_eq. eapply lookup_lt_Some, H.
    + simpl. rewrite set_phones_nil, list_insert_id by exact H. reflexivity.
Qed.

Lemma len_two_or_more {A} (x y : A) (l : list A) : (len (x :: y :: l) <? 2) = false.
Proof. apply Z.ltb_ge. unfold len. simpl length. lia. Qed.

Lemma add_contact_run (name phone : str) (phones : list str) (st : State) :
  (∀ a, dict_get name (book st) = Some a → (a < length (heap st))%nat) →
  let h1 := heap st ++ [Record_init name] in
  let a := default (length (heap st)) (dict_get name (book st)) in
  let h2 := <[a := set_phones (fun ps => ps ++ accepted_prefix (phone :: phones))
                               (deref h1 a)]> h1 in
  add_contact (name :: phone :: phones) st =
  if forallb accepts (phone :: phones)
  then (Return (added_message name (phone :: phones)),
        mkState h2 (dict_set (Name_value (r_name (deref h2 a))) a (book st)))
  else (Return (str_exn phone_format_error), mkState h2 (book st)).
Proof.
  intros Hvalid h1 a h2.
  assert (Ha : h1 !! a = Some (deref h1 a)).
  { unfold deref. destruct (h1 !! a) eqn:E; [reflexivity|].
    apply lookup_ge_None in E. unfold h1 in E. rewrite length_app in E. simpl in E.
    unfold a in E. destruct (dict_get name (book st)) as [a'|] eqn:Hg; simpl in E.
    - specialize (Hvalid a' eq_refl). lia.
    - lia. }
  unfold add_contact, input_error. rewrite len_two_or_more.
  cbn [hd tl]. unfold bind at 1. unfold new_Record.
  unfold bind at 1. unfold gets at 1. cbn [book set_heap heap].
  unfold bind at 1.
  fold h1. fold a.
  change (set_heap _ st) with (mkState h1 (book st)).
  rewrite (for_each_add_phone (phone :: phones) a h1 (book st) _ Ha).
  fold h2.
  destruct (forallb accepts (phone :: phones)); [|reflexivity].
  unfold bind at 1. unfold AddressBook_add_record, bind, gets, modify, ret, set_book.
  cbn [heap book]. reflexivity.
Qed.

Lemma accepts_all (phones : list str) :
  Forall (fun p => is_return (Phone_init p)) phones →
  forallb accepts phones = true ∧ accepted_prefix phones = map mkPhone phones.
Proof.
  induction 1 as [|p phones [q Hq] _ [IH1 IH2]]; simpl; [split; reflexivity|].
  unfold accepts at 1. rewrite Hq, IH1, IH2.
  destruct (Phone_init_cases p) as [[_ He]|[_ He]]; rewrite He in Hq;
    [|discriminate].
  injection Hq as <-. split; reflexivity.
Qed.

Lemma accepts_not_all (phones : list str) :
  Exists (fun p => ¬ is_return (Phone_init p)) phones →
  forallb accepts phones = false.
Proof.
  induction 1 as [p phones Hp|p phones _ IH]; simpl.
  - unfold accepts. destruct (Phone_init p) eqn:E; [|reflexivity].
    exfalso. apply Hp. eexists. reflexivity.
  - rewrite IH. apply andb_false_r.
Qed.

Lemma wf_state_allocated (st : State) (name : str) (a : nat) :
  wf_state st → dict_get name (book st) = Some a →
  ∃ r, heap st !! a = Some r ∧ Name_value (r_name r) = name.
Proof.
  intros [_ Hall] Hget. apply dict_get_Some_elem in Hget.
  rewrite Forall_forall in Hall. exact (Hall _ Hget).
Qed.

Lemma deref_lookup (h : list RecordObj) (a : nat) (r : RecordObj) :
  h !! a = Some r → deref h a = r.
Proof. intros H. unfold deref. rewrite H. reflexivity. Qed.

(** [add_contact] with a new name, a rejected phone among the arguments:
    the record that was being filled is dropped, the book is not touched. *)
Lemma add_contact_new_rejected (st : State) (name phone : str) (phones : list str) :
  dict_get name (book st) = None →
  Exists (fun p => ¬ is_return (Phone_init p)) (phone :: phones) →
  ∃ dropped,
    add_contact (name :: phone :: phones) st
    = (Return (u "Phone number must be 10 digits"),
       mkState (heap st ++ [dropped]) (book st)).
Proof.
  intros Hnone Hex.
  rewrite add_contact_run by (intros a Ha; congruence).
  rewrite (accepts_not_all _ Hex), Hnone. cbn [default from_option id].
  eexists. f_equal. f_equal.
  rewrite insert_app_r_alt by lia. rewrite Nat.sub_diag. reflexivity.
Qed.

Lemma contents_extend (st : State) (extra : list RecordObj) :
  wf_state st →
  contents (mkState (heap st ++ extra) (book st)) = contents st.
Proof.
  intros [_ Hall]. unfold contents. cbn [heap book].
  apply map_ext_in. intros e He. f_equal.
  rewrite Forall_forall in Hall. apply list_elem_of_In in He.
  destruct (Hall e He) as (r & Hr & _).
  unfold deref. rewrite lookup_app_l by (eapply lookup_lt_Some, Hr).
  reflexivity.
Qed.

Lemma add_contact_accepted (st : State) (name phone : str) (phones : list str) :
  wf_state st →
  Forall (fun p => is_return (Phone_init p)) (phone :: phones) →
  ∃ st',
    add_contact (name :: phone :: phones) st
    = (Return (added_message name (phone :: phones)), st')
    ∧ wf_state st'
    ∧ count_key name (book st') = 1%nat
    ∧ phones_of name st' = phones_of name st ++ map mkPhone (phone :: phones).
Proof.
  intros Hwf Hok. destruct (accepts_all _ Hok) as [Hall Hpre].
  assert (Halloc : ∀ a, dict_get name (book st) = Some a → (a < length (heap st))%nat).
  { intros a Ha. destruct (wf_state_allocated st name a Hwf Ha) as (r & Hr & _).
    eapply lookup_lt_Some, Hr. }
  rewrite (add_contact_run name phone phones st Halloc). rewrite Hall, Hpre.
  eexists. split; [reflexivity|].
  destruct Hwf as [Hnd Hent].
  unfold phones_of at 2.
  destruct (dict_get name (book st)) as [a|] eqn:Hget; cbn [default from_option id].
  - destruct (wf_state_allocated st name a (conj Hnd Hent) Hget) as (r & Hr & Hname).
    assert (Hlt : (a < length (heap st))%nat) by (eapply lookup_lt_Some, Hr).
    rewrite (deref_lookup (heap st ++ _) a r) by (rewrite lookup_app_l; assumption).
    rewrite (deref_lookup (<[a:=_]> _) a
               (set_phones (fun ps => ps ++ map mkPhone (phone :: phones)) r))
      by (apply list_lookup_insert_eq; rewrite length_app; lia).
    cbn [set_phones r_name]. rewrite Hname. rewrite (dict_set_same _ _ _ Hget).
    split; [|split].
    + split; [exact Hnd|]. cbn [heap book].
      rewrite Forall_forall in Hent |- *. intros e He.
      destruct (Hent e He) as (re & Hre & Hne).
      destruct (decide (e.2 = a)) as [Heq|Hneq].
      * rewrite Heq. eexists. split.
        { apply list_lookup_insert_eq. rewrite length_app. lia. }
        cbn [set_phones r_name]. rewrite Heq, Hr in Hre. congruence.
      * exists re. split; [|exact Hne].
        rewrite list_lookup_insert_ne by congruence.
        rewrite lookup_app_l by (eapply lookup_lt_Some, Hre). exact Hre.
    + cbn [book]. apply count_key_present; [exact Hnd|].
      apply dict_get_Some_elem in Hget.
      apply list_elem_of_fmap. exists (name, a). split; [reflexivity | exact Hget].
    + unfold phones_of. cbn [book heap]. rewrite Hget.
      rewrite (deref_lookup (<[a:=_]> _) a
                 (set_phones (fun ps => ps ++ map mkPhone (phone :: phones)) r))
        by (apply list_lookup_insert_eq; rewrite length_app; lia).
      rewrite (deref_lookup _ a r Hr). reflexivity.
  - rewrite (deref_lookup (heap st ++ _) (length (heap st)) (Record_init name))
      by (apply list_lookup_middle; reflexivity).
    set (r' := set_phones (fun ps => ps ++ map mkPhone (phone :: phones))
                          (Record_init name)).
    rewrite insert_app_r_alt by lia. rewrite Nat.sub_diag.
    change (<[0%nat:=r']> [Record_init name]) with [r'].
    set (a := length (heap st)).
    assert (Hr' : (heap st ++ [r']) !! a = Some r')
      by (apply list_lookup_middle; reflexivity).
    rewrite (deref_lookup _ a r' Hr'). cbn [r' set_phones r_name Record_init Name_value].
    rewrite (dict_set_new _ _ _ Hget).
    split; [|split].
    + split; cbn [heap book].
      * rewrite map_app. apply NoDup_app. split; [exact Hnd|]. split.
        { intros x Hx Hx'. apply list_elem_of_singleton in Hx'. subst x.
          apply dict_get_None in Hget. contradiction. }
        apply NoDup_singleton.
      * apply Forall_app. split.
        { rewrite Forall_forall in Hent |- *. intros e He.
          destruct (Hent e He) as (re & Hre & Hne). exists re. split; [|exact Hne].
          rewrite lookup_app_l by (eapply lookup_lt_Some, Hre). exact Hre. }
        apply Forall_singleton. exists r'. split; [exact Hr' | reflexivity].
    + cbn [book]. rewrite count_key_app.
      rewrite count_key_absent by (apply dict_get_None; exact Hget).
      simpl. destruct (decide (name = name)); [reflexivity | congruence].
    + unfold phones_of. cbn [book heap]. rewrite (dict_get_app_new _ _ _ Hget).
      rewrite (deref_lookup _ a r' Hr'). reflexivity.
Qed.

(** C10: [add_contact] with a name that is not in the book and a rejected
    phone among its arguments returns the format message and leaves the book
    as it was: no entry is added and what the book holds is unchanged, also
    when accepted phones come before the rejected one. *)
Theorem C10_rejected_phone_adds_no_contact
  (st : State) (name : str) (phones : list str) :
  wf_state st →
  dict_get name (book st) = None →
  phones ≠ [] →
  Exists (fun p => ¬ is_return (Phone_init p)) phones →
  ∃ st',
    add_contact (name :: phones) st
    = (Return (u "Phone number must be 10 digits"), st')
    ∧ book st' = book st
    ∧ contents st' = contents st
    ∧ dict_get name (book st') = None
    ∧ count_key name (book st') = 0%nat.
Proof.
  intros Hwf Hnone Hne Hex. destruct phones as [|phone phones]; [congruence|].
  destruct (add_contact_new_rejected st name phone phones Hnone Hex) as [dropped H].
  eexists. split; [exact H|]. cbn [book]. split; [reflexivity|].
  split; [apply contents_extend; exact Hwf|]. split; [exact Hnone|].
  apply count_key_absent, dict_get_None, Hnone.
Qed.

Lemma wf_state_example :
  wf_state (mkState [mkRecord (mkName (u "Bob")) [mkPhone (u "5555555555")] None]
                    [(u "Bob", 0%nat)]).
Proof.
  split; cbn [heap book].
  - apply NoDup_singleton.
  - apply Forall_singleton. eexists. split; reflexivity.
Qed.

Lemma C10_rejected_phone_adds_no_contact_witness :
  let st := mkState [mkRecord (mkName (u "Bob")) [mkPhone (u "5555555555")] None]
                    [(u "Bob", 0%nat)] in
  ∃ st',
    add_contact [u "Alice"; u "1234567890"; u "12345"] st
    = (Return (u "Phone number must be 10 digits"), st')
    ∧ book st' = book st
    ∧ contents st' = contents st
    ∧ dict_get (u "Alice") (book st') = None
    ∧ count_key (u "Alice") (book st') = 0%nat.
Proof.
  intros st.
  apply (C10_rejected_phone_adds_no_contact st (u "Alice") [u "1234567890"; u "12345"]).
  - exact wf_state_example.
  - vm_compute. reflexivity.
  - discriminate.
  - apply Exists_cons_tl, Exists_cons_hd. intros [p Hp]. vm_compute in Hp.
    discriminate.
Defined.

(** C6: two calls of [add_contact] with the same name and accepted phones
    leave exactly one entry under that name; its record holds the phones it
    had before, then those of the first call, then those of the second, in
    order. *)
Theorem C6_add_twice_keeps_one_record
  (st : State) (name : str) (phones1 phones2 : list str) :
  wf_state st →
  phones1 ≠ [] →
  phones2 ≠ [] →
  Forall (fun p => is_return (Phone_init p)) phones1 →
  Forall (fun p => is_return (Phone_init p)) phones2 →
  ∃ st1 st2,
    add_contact (name :: phones1) st = (Return (added_message name phones1), st1)
    ∧ add_contact (name :: phones2) st1 = (Return (added_message name phones2), st2)
    ∧ count_key name (book st2) = 1%nat
    ∧ phones_of name st1 = phones_of name st ++ map mkPhone phones1
    ∧ phones_of name st2
      = phones_of name st ++ map mkPhone phones1 ++ map mkPhone phones2
    ∧ wf_state st2.
Proof.
  intros Hwf Hne1 Hne2 Hok1 Hok2.
  destruct phones1 as [|p1 phones1]; [congruence|].
  destruct phones2 as [|p2 phones2]; [congruence|].
  destruct (add_contact_accepted st name p1 phones1 Hwf Hok1)
    as (st1 & Hrun1 & Hwf1 & _ & Hph1).
  destruct (add_contact_accepted st1 name p2 phones2 Hwf1 Hok2)
    as (st2 & Hrun2 & Hwf2 & Hcount & Hph2).
  exists st1, st2. repeat (split; [assumption|]).
  split; [|exact Hwf2]. rewrite Hph2, Hph1, <- app_assoc. reflexivity.
Qed.

Lemma C6_add_twice_keeps_one_record_witness :
  ∃ st1 st2,
    add_contact [u "Alice"; u "1234567890"] (mkState [] [])
    = (Return (added_message (u "Alice") [u "1234567890"]), st1)
    ∧ add_contact [u "Alice"; u "0987654321"] st1
      = (Return (added_message (u "Alice") [u "0987654321"]), st2)
    ∧ count_key (u "Alice") (book st2) = 1%nat
    ∧ phones_of (u "Alice") st1
      = phones_of (u "Alice") (mkState [] []) ++ map mkPhone [u "1234567890"]
    ∧ phones_of (u "Alice") st2
      = phones_of (u "Alice") (mkState [] [])
        ++ map mkPhone [u "1234567890"] ++ map mkPhone [u "0987654321"]
    ∧ wf_state st2.
Proof.
  apply (C6_add_twice_keeps_one_record (mkState [] []) (u "Alice")
           [u "1234567890"] [u "0987654321"]).
  - split; cbn [heap book]; [apply NoDup_nil_2 | apply Forall_nil_2].
  - discriminate.
  - discriminate.
  - apply Forall_singleton. eexists. vm_compute. reflexivity.
  - apply Forall_singleton. eexists. vm_compute. reflexivity.
Defined.

(** ** Upcoming birthdays *)

Lemma replace_year_occurrence (b : datetime) (y : Z) (today dt : datetime) :
  y = year today →
  datetime_replace_year b y = Return dt → dt = occurrence b today.
Proof.
  intros ->. unfold datetime_replace_year, datetime_new, occurrence.
  repeat match goal with
  | |- context [if ?c then _ else _] => destruct c
  end; intros H; try discriminate. injection H as <-. reflexivity.
Qed.

Lemma add_days_plus_days (today owl : datetime) (n : Z) :
  datetime_add_days today n = Return owl → owl = plus_days today n.
Proof.
  unfold datetime_add_days, plus_days.
  destruct (_ && _); [|discriminate].
  destruct (ord2ymd _) as [[y m] d]. intros [= <-]. reflexivity.
Qed.

Lemma upcoming_from_spec (today : datetime) (h : list RecordObj) (addrs : list nat) :
  Forall (fun r => ∀ b, r_birthday r = Some b →
            is_return (datetime_replace_year (Birthday_value b) (year today)))
         (map (deref h) addrs) →
  ∀ acc,
  upcoming_from today (plus_days today 7) h addrs acc
  = Return (acc ++ upcoming_spec today (map (deref h) addrs)).
Proof.
  induction addrs as [|a addrs IH]; intros Hdef acc.
  - simpl. rewrite app_nil_r. reflexivity.
  - rewrite map_cons in Hdef. apply Forall_cons in Hdef as [Ha Hdef].
    cbn [upcoming_from map]. unfold upcoming_spec. cbn [omap list_omap].
    fold (upcoming_spec today (map (deref h) addrs)).
    unfold upcoming_entry at 1.
    destruct (r_birthday (deref h a)) as [b|] eqn:Hb.
    + destruct (Ha b eq_refl) as [dt Hdt]. rewrite Hdt. cbn [obind].
      rewrite (replace_year_occurrence _ _ today dt eq_refl Hdt).
      unfold in_window.
      destruct (datetime_le today _ && datetime_le _ (plus_days today 7)).
      * rewrite IH by exact Hdef. rewrite <- app_assoc. reflexivity.
      * apply IH, Hdef.
    + apply IH, Hdef.
Qed.

(** C4, as stated, fails.  With a contact born on 29 February in the book
    and a reference instant in 2023, the contact born on 5 June, whose
    occurrence 5 June 2023 is in the window of 1 June 2023, is not returned:
    the call raises.  And in the last week of the year 9999 the end of the
    window is not a date the calendar holds: the call raises as well, and a
    contact whose birthday is two days ahead is not returned. *)
Lemma C4_window_fails_when_call_raises :
  ¬ (AddressBook_get_upcoming_birthdays (mkDatetime 2023 6 1 9 30 0 0) leap_day_book
     = Return (upcoming_spec (mkDatetime 2023 6 1 9 30 0 0) (records leap_day_book)))
  ∧ ¬ (AddressBook_get_upcoming_birthdays (mkDatetime 9999 12 28 9 30 0 0) december_book
       = Return (upcoming_spec (mkDatetime 9999 12 28 9 30 0 0) (records december_book)))
  ∧ upcoming_spec (mkDatetime 2023 6 1 9 30 0 0) (records leap_day_book)
    = [(u "Ann", u "05.06.2023")]
  ∧ upcoming_spec (mkDatetime 9999 12 28 9 30 0 0) (records december_book)
    = [(u "Eve", u "30.12.9999")].
Proof.
  split; [vm_compute; discriminate|].
  split; [vm_compute; discriminate|].
  split; vm_compute; reflexivity.
Qed.

(** C4 (amended): when the reference instant plus seven days is a date the
    calendar can hold and the occurrence of every birthday of the book exists
    in the reference year, [get_upcoming_birthdays] returns, in the order of
    the book, the entries of exactly the records that have a birthday whose
    occurrence (the birthday with the year replaced by the reference year)
    satisfies reference <= occurrence <= reference + 7 days; a birthday
    earlier in the reference year is not moved to the next year. *)
Theorem C4_upcoming_birthdays_window (today : datetime) (st : State) :
  is_return (datetime_add_days today 7) →
  occurrences_defined today st →
  AddressBook_get_upcoming_birthdays today st
  = Return (upcoming_spec today (records st))
  ∧ ∀ name date,
      (name, date) ∈ upcoming_spec today (records st)
      ↔ ∃ r b,
          r ∈ records st
          ∧ r_birthday r = Some b
          ∧ name = Name_value (r_name r)
          ∧ date = strftime (occurrence (Birthday_value b) today)
          ∧ datetime_le today (occurrence (Birthday_value b) today) = true
          ∧ datetime_le (occurrence (Birthday_value b) today) (plus_days today 7)
            = true.
Proof.
  intros [owl Howl] Hdef. split.
  - unfold AddressBook_get_upcoming_birthdays. rewrite Howl. cbn [obind].
    rewrite (add_days_plus_days _ _ _ Howl).
    unfold occurrences_defined, records in Hdef.
    rewrite <- (map_map snd (deref (heap st))) in Hdef.
    rewrite (upcoming_from_spec today (heap st) (map snd (book st)) Hdef []).
    unfold records. rewrite <- (map_map snd (deref (heap st))). reflexivity.
  - intros name date. unfold upcoming_spec. rewrite list_elem_of_omap. split.
    + intros (r & Hr & He). unfold upcoming_entry in He.
      destruct (r_birthday r) as [b|] eqn:Hb; [|discriminate].
      unfold in_window in He.
      destruct (datetime_le today _) eqn:H1; [|discriminate].
      destruct (datetime_le _ (plus_days today 7)) eqn:H2; [|discriminate].
      injection He as <- <-. exists r, b. repeat split; assumption.
    + intros (r & b & Hr & Hb & -> & -> & H1 & H2). exists r. split; [exact Hr|].
      unfold upcoming_entry, in_window. rewrite Hb, H1, H2. reflexivity.
Qed.

Lemma C4_upcoming_birthdays_window_witness :
  AddressBook_get_upcoming_birthdays (mkDatetime 2024 6 1 9 30 0 0) june_book
  = Return (upcoming_spec (mkDatetime 2024 6 1 9 30 0 0) (records june_book))
  ∧ upcoming_spec (mkDatetime 2024 6 1 9 30 0 0) (records june_book)
    = [(u "Ann", u "05.06.2024")].
Proof.
  split; [|vm_compute; reflexivity].
  apply (C4_upcoming_birthdays_window (mkDatetime 2024 6 1 9 30 0 0) june_book).
  - eexists. vm_compute. reflexivity.
  - repeat constructor; intros b [= <-]; eexists; vm_compute; reflexivity.
Defined.

(** A birthday just after the turn of the year is not in the window of a
    reference instant at the end of the year. *)
Lemma no_year_wrap :
  AddressBook_get_upcoming_birthdays (mkDatetime 2024 12 29 9 30 0 0)
    (mkState [mkRecord (mkName (u "Dan")) [] (born 2000 1 2)] [(u "Dan", 0%nat)])
  = Return [].
Proof. vm_compute. reflexivity. Qed.

Lemma replace_leap_day (b : datetime) (y : Z) :
  month b = 2 → day b = 29 → is_leap y = false →
  ∃ msg, datetime_replace_year b y = Raise (ValueError msg).
Proof.
  intros Hm Hd Hy. unfold datetime_replace_year, datetime_new.
  rewrite Hm, Hd. unfold days_in_month. rewrite Hy.
  destruct (negb (_ && _)); [eexists; reflexivity|].
  eexists. reflexivity.
Qed.

Lemma upcoming_from_leap_day (today owl : datetime) (h : list RecordObj)
  (a : nat) (b : Birthday) (addrs : list nat) :
  a ∈ addrs →
  r_birthday (deref h a) = Some b →
  month (Birthday_value b) = 2 → day (Birthday_value b) = 29 →
  is_leap (year today) = false →
  ∀ acc, ∃ msg, upcoming_from today owl h addrs acc = Raise (ValueError msg).
Proof.
  intros Hin Hb Hm Hd Hy.
  induction addrs as [|a' addrs IH]; intros acc.
  - apply elem_of_nil in Hin. contradiction.
  - cbn [upcoming_from]. apply elem_of_cons in Hin as [<-|Hin].
    + rewrite Hb. destruct (replace_leap_day _ _ Hm Hd Hy) as [msg ->].
      exists msg. reflexivity.
    + specialize (IH Hin). destruct (r_birthday (deref h a')) as [b'|]; [|apply IH].
      unfold datetime_replace_year, datetime_new.
      repeat match goal with
      | |- context [if negb ?c then _ else _] => destruct (negb c)
      end; cbn [obind]; try (eexists; reflexivity).
      destruct (_ && _); apply IH.
Qed.

(** C5 (what the program does): with a contact born on 29 February in the
    book and a reference instant in a year that is not a leap year,
    [get_upcoming_birthdays] does not skip the record and return: it raises,
    and the [birthdays] command answers with the text of the error instead of
    a list. *)
Theorem C5_leap_day_birthday_raises
  (today : datetime) (st : State) (name : str) (a : nat) (b : Birthday) :
  (name, a) ∈ book st →
  r_birthday (deref (heap st) a) = Some b →
  month (Birthday_value b) = 2 →
  day (Birthday_value b) = 29 →
  is_leap (year today) = false →
  ∃ e, AddressBook_get_upcoming_birthdays today st = Raise e
       ∧ birthdays today None st = (Return (str_exn e), st).
Proof.
  intros Hin Hb Hm Hd Hy.
  assert (H : ∃ e, AddressBook_get_upcoming_birthdays today st = Raise e).
  { unfold AddressBook_get_upcoming_birthdays.
    destruct (datetime_add_days today 7) as [owl|e]; cbn [obind].
    - assert (Ha : a ∈ map snd (book st)).
      { apply list_elem_of_fmap. exists (name, a). split; [reflexivity | exact Hin]. }
      destruct (upcoming_from_leap_day today owl (heap st) a b _ Ha Hb Hm Hd Hy [])
        as [msg Hmsg].
      eexists. exact Hmsg.
    - eexists. reflexivity. }
  destruct H as [e He]. exists e. split; [exact He|].
  unfold birthdays, input_error, bind. rewrite He. reflexivity.
Qed.

Lemma C5_leap_day_birthday_raises_witness :
  ∃ e, AddressBook_get_upcoming_birthdays (mkDatetime 2023 6 1 9 30 0 0) leap_day_book
       = Raise e
       ∧ birthdays (mkDatetime 2023 6 1 9 30 0 0) None leap_day_book
         = (Return (str_exn e), leap_day_book).
Proof.
  apply (C5_leap_day_birthday_raises (mkDatetime 2023 6 1 9 30 0 0) leap_day_book
           (u "Bob") 1%nat (mkBirthday (mkDatetime 2000 2 29 0 0 0 0))).
  - apply list_elem_of_further, list_elem_of_here.
  - reflexivity.
  - reflexivity.
  - reflexivity.
  - reflexivity.
Defined.

(** At the failing input the command prints the error of the library. *)
Lemma birthdays_on_leap_day_book :
  birthdays (mkDatetime 2023 6 1 9 30 0 0) None leap_day_book
  = (Return (u "day is out of range for month"), leap_day_book).
Proof. vm_compute. reflexivity. Qed.

(** ** The matcher *)

Lemma one_char_spec (p : N → bool) (s m rest : str) :
  In (m, rest) (one_char p s) ↔ ∃ c, p c = true ∧ m = [c] ∧ s = c :: rest.
Proof.
  destruct s as [|x s]; simpl.
  - split; [contradiction | intros (c & _ & _ & H); discriminate].
  - destruct (p x) eqn:Hp; simpl.
    + split.
      * intros [[= <- <-]|[]]. exists x. auto.
      * intros (c & _ & -> & [= -> ->]). left. reflexivity.
    + split; [contradiction|]. intros (c & Hc & _ & [= -> _]). congruence.
Qed.

Lemma re_run_spec (r : regex) :
  ∀ s m rest, In (m, rest) (re_run r s) ↔ s = m ++ rest ∧ re_lang r m.
Proof.
  induction r as [c|lo hi| |r1 IH1 r2 IH2|r1 IH1 r2 IH2]; intros s m rest;
    cbn [re_run].
  - rewrite one_char_spec. split.
    + intros (x & Hx & -> & ->). apply N.eqb_eq in Hx as <-.
      split; [reflexivity | constructor].
    + intros [-> H]. inversion H; subst. exists c.
      rewrite N.eqb_refl. auto.
  - rewrite one_char_spec. split.
    + intros (x & Hx & -> & ->). split; [reflexivity | constructor; exact Hx].
    + intros [-> H]. inversion H; subst. eauto.
  - rewrite one_char_spec. split.
    + intros (x & Hx & -> & ->). split; [reflexivity | constructor; exact Hx].
    + intros [-> H]. inversion H; subst. eauto.
  - rewrite in_flat_map. split.
    + intros ([m1 s1] & H1 & H2). apply in_map_iff in H2 as ([m2 s2] & [= <- <-] & H2).
      apply IH1 in H1 as [-> L1]. apply IH2 in H2 as [-> L2].
      split; [rewrite app_assoc; reflexivity | constructor; assumption].
    + intros [-> H]. inversion H as [| | |? ? m1 m2 L1 L2| |]; subst.
      exists (m1, m2 ++ rest). split.
      * apply IH1. split; [rewrite app_assoc; reflexivity | exact L1].
      * apply in_map_iff. exists (m2, rest). split; [reflexivity|].
        apply IH2. split; [reflexivity | exact L2].
  - rewrite in_app_iff, IH1, IH2. split.
    + intros [[-> H]|[-> H]]; (split; [reflexivity|]);
        [apply lang_Alt_l | apply lang_Alt_r]; exact H.
    + intros [-> H]. inversion H; subst; [left | right]; auto.
Qed.

Lemma re_excludes_sound (c : N) (r : regex) (m : str) :
  re_excludes c r = true → re_lang r m → c ∉ m.
Proof.
  intros Hex H. induction H; cbn [re_excludes] in Hex.
  - apply negb_true_iff, N.eqb_neq in Hex.
    intros Hin. apply list_elem_of_singleton in Hin. congruence.
  - intros Hin. apply list_elem_of_singleton in Hin. subst.
    rewrite H in Hex. discriminate.
  - intros Hin. apply list_elem_of_singleton in Hin. subst.
    rewrite H in Hex. discriminate.
  - apply andb_true_iff in Hex as [H1 H2]. rewrite elem_of_app.
    intros [Hin|Hin]; [apply IHre_lang1 in Hin | apply IHre_lang2 in Hin]; auto.
  - apply andb_true_iff in Hex as [H1 H2]. auto.
  - apply andb_true_iff in Hex as [H1 H2]. auto.
Qed.

Lemma first_separator (c : N) (a a' b b' : str) :
  c ∉ a → c ∉ a' → a ++ c :: b = a' ++ c :: b' → a = a' ∧ b = b'.
Proof.
  revert a'. induction a as [|x a IH]; intros a' Ha Ha' H.
  - destruct a' as [|x' a']; simpl in H.
    + injection H as <-. auto.
    + injection H as <- _. exfalso. apply Ha'. apply list_elem_of_here.
  - destruct a' as [|x' a']; simpl in H.
    + injection H as -> _. exfalso. apply Ha. apply list_elem_of_here.
    + injection H as <- H. apply not_elem_of_cons in Ha as [_ Ha].
      apply not_elem_of_cons in Ha' as [_ Ha'].
      destruct (IH a' Ha Ha' H) as [-> ->]. auto.
Qed.

Lemma re_Y_length (Y : str) : re_lang re_Y Y → length Y = 4%nat.
Proof.
  unfold re_Y. intros H.
  repeat match goal with
  | H : re_lang (Cat _ _) _ |- _ => inversion H; clear H; subst
  | H : re_lang Digit _ |- _ => inversion H; clear H; subst
  end. reflexivity.
Qed.

Lemma format_regex_matches_spec (s d m Y rest : str) :
  In (d, m, Y, rest) (format_regex_matches s)
  ↔ s = d ++ u "." ++ m ++ u "." ++ Y ++ rest
    ∧ re_lang re_d d ∧ re_lang re_m m ∧ re_lang re_Y Y.
Proof.
  unfold format_regex_matches. split.
  - intros H.
    apply in_flat_map in H as ([d' s1] & H1 & H).
    apply in_flat_map in H as ([p s2] & H2 & H).
    apply in_flat_map in H as ([m' s3] & H3 & H).
    apply in_flat_map in H as ([q s4] & H4 & H).
    apply in_map_iff in H as ([Y' s5] & [= <- <- <- <-] & H5).
    apply re_run_spec in H1 as [-> L1]. apply re_run_spec in H2 as [-> L2].
    apply re_run_spec in H3 as [-> L3]. apply re_run_spec in H4 as [-> L4].
    apply re_run_spec in H5 as [-> L5].
    inversion L2; subst. inversion L4; subst. auto.
  - intros (-> & L1 & L3 & L5).
    apply in_flat_map. exists (d, u "." ++ m ++ u "." ++ Y ++ rest).
    split; [apply re_run_spec; auto|].
    apply in_flat_map. exists (u ".", m ++ u "." ++ Y ++ rest).
    split; [apply re_run_spec; split; [reflexivity | constructor]|].
    apply in_flat_map. exists (m, u "." ++ Y ++ rest).
    split; [apply re_run_spec; auto|].
    apply in_flat_map. exists (u ".", Y ++ rest).
    split; [apply re_run_spec; split; [reflexivity | constructor]|].
    apply in_map_iff. exists (Y, rest). split; [reflexivity|].
    apply re_run_spec. auto.
Qed.

(** The pattern matches a text in at most one way. *)
Lemma format_regex_matches_unique (s d m Y rest d' m' Y' rest' : str) :
  In (d, m, Y, rest) (format_regex_matches s) →
  In (d', m', Y', rest') (format_regex_matches s) →
  (d, m, Y, rest) = (d', m', Y', rest').
Proof.
  intros H H'. apply format_regex_matches_spec in H as (Hs & L1 & L3 & L5).
  apply format_regex_matches_spec in H' as (Hs' & L1' & L3' & L5').
  rewrite Hs in Hs'. clear Hs.
  assert (Hd : ∀ D, re_lang re_d D → ch "." ∉ D)
    by (intros D; apply re_excludes_sound; reflexivity).
  assert (Hm : ∀ M, re_lang re_m M → ch "." ∉ M)
    by (intros M; apply re_excludes_sound; reflexivity).
  apply (first_separator (ch ".")) in Hs' as [<- Hs']; auto.
  apply (first_separator (ch ".")) in Hs' as [<- Hs']; auto.
  apply re_Y_length in L5, L5'.
  assert (HY : Y = Y' ∧ rest = rest').
  { apply app_inj_1; [congruence | exact Hs']. }
  destruct HY as [<- <-]. reflexivity.
Qed.

Lemma format_regex_match_of_parts (d m Y : str) :
  re_lang re_d d → re_lang re_m m → re_lang re_Y Y →
  format_regex_match (d ++ u "." ++ m ++ u "." ++ Y) = Some (d, m, Y, []).
Proof.
  intros L1 L3 L5.
  assert (H : In (d, m, Y, []) (format_regex_matches (d ++ u "." ++ m ++ u "." ++ Y))).
  { apply format_regex_matches_spec. rewrite app_nil_r. auto. }
  unfold format_regex_match.
  destruct (format_regex_matches _) as [|[[[d' m'] Y'] rest'] l] eqn:E.
  - contradiction.
  - cbn [head]. f_equal. symmetry.
    apply (format_regex_matches_unique (d ++ u "." ++ m ++ u "." ++ Y)).
    + rewrite E. exact H.
    + rewrite E. left. reflexivity.
Qed.

Lemma format_regex_match_parts (s d m Y rest : str) :
  format_regex_match s = Some (d, m, Y, rest) →
  s = d ++ u "." ++ m ++ u "." ++ Y ++ rest
  ∧ re_lang re_d d ∧ re_lang re_m m ∧ re_lang re_Y Y.
Proof.
  unfold format_regex_match. intros H. apply format_regex_matches_spec.
  destruct (format_regex_matches s) as [|x l]; [discriminate|].
  injection H as ->. left. reflexivity.
Qed.

(** ** Parsing a date *)

Lemma datetime_new_valid (y m d hh mm ss us : Z) :
  valid_date y m d = true →
  datetime_new y m d hh mm ss us = Return (mkDatetime y m d hh mm ss us).
Proof.
  unfold valid_date, datetime_new. intros H.
  apply andb_true_iff in H as [H H3]. apply andb_true_iff in H as [H1 H2].
  rewrite H1, H2, H3. reflexivity.
Qed.

Lemma datetime_new_returns (y m d hh mm ss us : Z) (dt : datetime) :
  datetime_new y m d hh mm ss us = Return dt →
  valid_date y m d = true ∧ dt = mkDatetime y m d hh mm ss us.
Proof.
  unfold valid_date, datetime_new.
  destruct (_ && _); [|discriminate]. destruct (_ && _); [|discriminate].
  destruct (_ && _); [|discriminate]. intros [= <-]. auto.
Qed.

Lemma datetime_new_raises (y m d hh mm ss us : Z) (e : exn) :
  datetime_new y m d hh mm ss us = Raise e → ∃ msg, e = ValueError msg.
Proof.
  unfold datetime_new.
  repeat match goal with
  | |- context [if ?c then _ else _] => destruct c
  end; intros [= <-]; eauto.
Qed.

Lemma int_raises (s : str) (e : exn) : int s = Raise e → ∃ msg, e = ValueError msg.
Proof.
  unfold int. destruct (str_strip s); [intros [= <-]; eauto|].
  destruct (digits_value _ _); intros [= <-]; eauto.
Qed.

Lemma len_nothing_left (s rest : str) :
  (len s =? len s - len rest) = true ↔ rest = [].
Proof.
  rewrite Z.eqb_eq. unfold len. destruct rest; simpl length; split;
    try reflexivity; try discriminate; lia.
Qed.

Lemma strptime_of_parts (D M Y : str) (d m y : Z) :
  re_lang re_d D → re_lang re_m M → re_lang re_Y Y →
  int D = Return d → int M = Return m → int Y = Return y →
  strptime (D ++ u "." ++ M ++ u "." ++ Y) = datetime_new y m d 0 0 0 0.
Proof.
  intros L1 L2 L3 Hd Hm Hy. unfold strptime.
  rewrite (format_regex_match_of_parts D M Y L1 L2 L3). cbv zeta.
  rewrite (proj2 (len_nothing_left _ []) eq_refl). cbn [negb].
  rewrite Hy, Hm, Hd. reflexivity.
Qed.

Lemma strptime_parts (s : str) (dt : datetime) :
  strptime s = Return dt →
  ∃ D M Y d m y,
    s = D ++ u "." ++ M ++ u "." ++ Y
    ∧ re_lang re_d D ∧ re_lang re_m M ∧ re_lang re_Y Y
    ∧ int D = Return d ∧ int M = Return m ∧ int Y = Return y
    ∧ datetime_new y m d 0 0 0 0 = Return dt.
Proof.
  unfold strptime.
  destruct (format_regex_match s) as [[[[D M] Y] rest]|] eqn:E; [|discriminate].
  apply format_regex_match_parts in E as (Hs & L1 & L2 & L3). cbv zeta.
  destruct (len s =? len s - len rest) eqn:Hl; [|discriminate].
  apply len_nothing_left in Hl. subst rest. rewrite app_nil_r in Hs. cbn [negb].
  destruct (int Y) as [y|] eqn:Hy; [|discriminate].
  destruct (int M) as [m|] eqn:Hm; [|discriminate].
  destruct (int D) as [d|] eqn:Hd; [|discriminate].
  cbn [obind]. intros H. exists D, M, Y, d, m, y. auto 10.
Qed.

Lemma strptime_raises (s : str) (e : exn) :
  strptime s = Raise e → ∃ msg, e = ValueError msg.
Proof.
  unfold strptime.
  destruct (format_regex_match s) as [[[[D M] Y] rest]|]; [|intros [= <-]; eauto].
  cbv zeta. destruct (negb _); [intros [= <-]; eauto|].
  destruct (int Y) eqn:Hy; [|intros [= <-]; eapply int_raises, Hy].
  destruct (int M) eqn:Hm; [|intros [= <-]; eapply int_raises, Hm].
  destruct (int D) eqn:Hd; [|intros [= <-]; eapply int_raises, Hd].
  cbn [obind]. apply datetime_new_raises.
Qed.

Lemma Birthday_init_cases (s : str) :
  (∃ dt, strptime s = Return dt ∧ Birthday_init s = Return (mkBirthday dt))
  ∨ (¬ is_return (strptime s) ∧ Birthday_init s = Raise invalid_date_format).
Proof.
  unfold Birthday_init. destruct (strptime s) as [dt|e] eqn:E.
  - left. eauto.
  - right. split; [intros [dt H]; discriminate|].
    destruct (strptime_raises s e E) as [msg ->]. reflexivity.
Qed.

(** *** Texts of ASCII digits *)

Lemma ascii_digit_facts (c : N) :
  char_is_ascii_digit c = true →
  char_isdecimal c = true ∧ char_isspace c = false
  ∧ digit_value c = Some (ascii_digit_value c)
  ∧ 0 <= ascii_digit_value c <= 9.
Proof.
  unfold char_is_ascii_digit. intros H.
  apply andb_true_iff in H as [H1 H2]. apply N.leb_le in H1, H2.
  assert (Hc : (c = 48 ∨ c = 49 ∨ c = 50 ∨ c = 51 ∨ c = 52 ∨ c = 53 ∨ c = 54
                ∨ c = 55 ∨ c = 56 ∨ c = 57)%N) by lia.
  repeat destruct Hc as [->|Hc]; try subst c; vm_compute; intuition congruence.
Qed.

Lemma str_lstrip_no_space (s : str) :
  Forall (fun c => char_isspace c = false) s → str_lstrip s = s.
Proof. intros H. destruct H as [|c s Hc _]; simpl; [|rewrite Hc]; reflexivity. Qed.

Lemma str_strip_no_space (s : str) :
  Forall (fun c => char_isspace c = false) s → str_strip s = s.
Proof.
  intros H. unfold str_strip. rewrite (str_lstrip_no_space s H).
  rewrite str_lstrip_no_space by (apply Forall_rev; exact H).
  apply rev_involutive.
Qed.

Lemma int_two_digits (a b : N) :
  char_is_ascii_digit a = true → char_is_ascii_digit b = true →
  int [a; b] = Return (10 * ascii_digit_value a + ascii_digit_value b).
Proof.
  intros Ha Hb.
  destruct (ascii_digit_facts a Ha) as (_ & Sa & Va & _).
  destruct (ascii_digit_facts b Hb) as (_ & Sb & Vb & _).
  unfold int. rewrite str_strip_no_space by (repeat constructor; assumption).
  cbn [digits_value]. rewrite Va, Vb. f_equal; lia.
Qed.

Lemma int_four_digits (a b c d : N) :
  char_is_ascii_digit a = true → char_is_ascii_digit b = true →
  char_is_ascii_digit c = true → char_is_ascii_digit d = true →
  int [a; b; c; d]
  = Return (1000 * ascii_digit_value a + 100 * ascii_digit_value b
            + 10 * ascii_digit_value c + ascii_digit_value d).
Proof.
  intros Ha Hb Hc Hd.
  destruct (ascii_digit_facts a Ha) as (_ & Sa & Va & _).
  destruct (ascii_digit_facts b Hb) as (_ & Sb & Vb & _).
  destruct (ascii_digit_facts c Hc) as (_ & Sc & Vc & _).
  destruct (ascii_digit_facts d Hd) as (_ & Sd & Vd & _).
  unfold int. rewrite str_strip_no_space by (repeat constructor; assumption).
  cbn [digits_value]. rewrite Va, Vb, Vc, Vd. f_equal; lia.
Qed.

Lemma in_range (lo hi c : N) :
  (lo <= c)%N → (c <= hi)%N → re_lang (Range lo hi) [c].
Proof.
  intros H1 H2. constructor. apply andb_true_iff. split; apply N.leb_le; assumption.
Qed.

Lemma ascii_digit_bounds (c : N) :
  char_is_ascii_digit c = true → (48 <= c)%N ∧ (c <= 57)%N.
Proof.
  unfold char_is_ascii_digit. intros H. apply andb_true_iff in H as [H1 H2].
  split; apply N.leb_le; assumption.
Qed.

Lemma two_digit_day (a b : N) :
  char_is_ascii_digit a = true → char_is_ascii_digit b = true →
  1 <= 10 * ascii_digit_value a + ascii_digit_value b <= 31 →
  re_lang re_d [a; b].
Proof.
  intros Ha Hb Hv.
  destruct (ascii_digit_facts b Hb) as (Db & _).
  apply ascii_digit_bounds in Ha, Hb. unfold ascii_digit_value in Hv.
  change [a; b] with ([a] ++ [b]). unfold re_d.
  assert (Hc : (a = 48 ∨ a = 49 ∨ a = 50 ∨ a = 51)%N) by lia.
  destruct Hc as [->|[->|[->| ->]]].
  - apply lang_Alt_r, lang_Alt_r, lang_Alt_l, lang_Cat;
      [constructor | apply in_range; change (ch "1") with 49%N;
                     change (ch "9") with 57%N; lia].
  - apply lang_Alt_r, lang_Alt_l, lang_Cat;
      [apply in_range; vm_compute; discriminate | constructor; exact Db].
  - apply lang_Alt_r, lang_Alt_l, lang_Cat;
      [apply in_range; vm_compute; discriminate | constructor; exact Db].
  - apply lang_Alt_l, lang_Cat;
      [constructor | apply in_range; change (ch "0") with 48%N;
                     change (ch "1") with 49%N; lia].
Qed.

Lemma two_digit_month (a b : N) :
  char_is_ascii_digit a = true → char_is_ascii_digit b = true →
  1 <= 10 * ascii_digit_value a + ascii_digit_value b <= 12 →
  re_lang re_m [a; b].
Proof.
  intros Ha Hb Hv.
  apply ascii_digit_bounds in Ha, Hb. unfold ascii_digit_value in Hv.
  change [a; b] with ([a] ++ [b]). unfold re_m.
  assert (Hc : (a = 48 ∨ a = 49)%N) by lia.
  destruct Hc as [->| ->].
  - apply lang_Alt_r, lang_Alt_l, lang_Cat;
      [constructor | apply in_range; change (ch "1") with 49%N;
                     change (ch "9") with 57%N; lia].
  - apply lang_Alt_l, lang_Cat;
      [constructor | apply in_range; change (ch "0") with 48%N;
                     change (ch "2") with 50%N; lia].
Qed.

Lemma four_digit_year (a b c d : N) :
  char_is_ascii_digit a = true → char_is_ascii_digit b = true →
  char_is_ascii_digit c = true → char_is_ascii_digit d = true →
  re_lang re_Y [a; b; c; d].
Proof.
  intros Ha Hb Hc Hd.
  apply ascii_digit_facts in Ha as (Ha & _). apply ascii_digit_facts in Hb as (Hb & _).
  apply ascii_digit_facts in Hc as (Hc & _). apply ascii_digit_facts in Hd as (Hd & _).
  change [a; b; c; d] with ([a] ++ [b] ++ [c] ++ [d]).
  unfold re_Y. repeat apply lang_Cat; constructor; assumption.
Qed.

Lemma days_in_month_at_most_31 (y m : Z) : 1 <= m <= 12 → days_in_month y m <= 31.
Proof.
  intros Hm. unfold days_in_month.
  destruct ((m =? 2) && is_leap y); [lia|].
  assert (Hc : m = 1 ∨ m = 2 ∨ m = 3 ∨ m = 4 ∨ m = 5 ∨ m = 6 ∨ m = 7 ∨ m = 8
               ∨ m = 9 ∨ m = 10 ∨ m = 11 ∨ m = 12) by lia.
  repeat destruct Hc as [->|Hc]; try subst m; vm_compute; discriminate.
Qed.

Lemma read_DD_MM_YYYY_shape (s : str) (y m d : Z) :
  read_DD_MM_YYYY s = Some (y, m, d) →
  ∃ d1 d2 m1 m2 y1 y2 y3 y4,
    s = [d1; d2] ++ u "." ++ [m1; m2] ++ u "." ++ [y1; y2; y3; y4]
    ∧ Forall (fun c => char_is_ascii_digit c = true) [d1; d2; m1; m2; y1; y2; y3; y4]
    ∧ y = 1000 * ascii_digit_value y1 + 100 * ascii_digit_value y2
          + 10 * ascii_digit_value y3 + ascii_digit_value y4
    ∧ m = 10 * ascii_digit_value m1 + ascii_digit_value m2
    ∧ d = 10 * ascii_digit_value d1 + ascii_digit_value d2.
Proof.
  unfold read_DD_MM_YYYY.
  destruct s as [|d1 [|d2 [|p [|m1 [|m2 [|q [|y1 [|y2 [|y3 [|y4 [|? ?]]]]]]]]]]];
    try discriminate.
  destruct (_ && _) eqn:E; [|discriminate]. intros [= <- <- <-].
  apply andb_true_iff in E as [E E3]. apply andb_true_iff in E as [E1 E2].
  apply N.eqb_eq in E1, E2. subst p q.
  apply forallb_Forall_true in E3.
  exists d1, d2, m1, m2, y1, y2, y3, y4. auto.
Qed.

(** A text in the format DD.MM.YYYY that denotes a date is parsed to that
    date. *)
Lemma strptime_DD_MM_YYYY (s : str) (y m d : Z) :
  read_DD_MM_YYYY s = Some (y, m, d) → valid_date y m d = true →
  strptime s = Return (mkDatetime y m d 0 0 0 0).
Proof.
  intros Hread Hvalid.
  destruct (read_DD_MM_YYYY_shape s y m d Hread)
    as (d1 & d2 & m1 & m2 & y1 & y2 & y3 & y4 & -> & Hdig & Hy & Hm & Hd).
  repeat match goal with
  | H : Forall _ (_ :: _) |- _ => apply Forall_cons in H as [? H]
  end.
  assert (Hv := Hvalid). unfold valid_date in Hv.
  apply andb_true_iff in Hv as [Hv Hv3]. apply andb_true_iff in Hv as [_ Hv2].
  apply andb_true_iff in Hv2 as [Hm1 Hm2]. apply andb_true_iff in Hv3 as [Hd1 Hd2].
  apply Z.leb_le in Hm1, Hm2, Hd1, Hd2.
  pose proof (days_in_month_at_most_31 y m (conj Hm1 Hm2)) as H31.
  rewrite (strptime_of_parts [d1; d2] [m1; m2] [y1; y2; y3; y4] d m y).
  - apply datetime_new_valid, Hvalid.
  - apply two_digit_day; [assumption..|]. lia.
  - apply two_digit_month; [assumption..|]. lia.
  - apply four_digit_year; assumption.
  - rewrite Hd. apply int_two_digits; assumption.
  - rewrite Hm. apply int_two_digits; assumption.
  - rewrite Hy. apply int_four_digits; assumption.
Qed.

(** ** Birthdays *)

(** C9, as stated, fails: the text 1.2.2020, which is not in the format
    DD.MM.YYYY (day and month are not written on two digits), is accepted. *)
Lemma C9_unpadded_date_accepted :
  ¬ (is_return (Birthday_init (u "1.2.2020")) ↔ DD_MM_YYYY_date (u "1.2.2020")).
Proof.
  intros [H _].
  assert (Ha : is_return (Birthday_init (u "1.2.2020"))).
  { eexists. vm_compute. reflexivity. }
  destruct (H Ha) as (y & m & d & Hread & _). vm_compute in Hread. discriminate.
Qed.

(** C9 (amended): [Birthday.__init__] succeeds if and only if the text is
    D.M.Y where D matches the day pattern of [strptime] (30 or 31, 1 or 2
    followed by a decimal digit, 0 followed by 1-9, one digit 1-9, or a space
    followed by 1-9), M its month pattern (10, 11, 12, 0 followed by 1-9, or
    one digit 1-9), Y is four decimal digits, and the numbers written are a
    date of the calendar (years 1 to 9999).  Every text in the format
    DD.MM.YYYY that denotes such a date is accepted, with that date as value;
    every other outcome is the format error; 29.02.2024 is accepted and
    29.02.2023 is not. *)
Theorem C9_Birthday_init_accepts_dates (s : str) :
  (is_return (Birthday_init s)
   ↔ ∃ D M Y d m y,
       s = D ++ u "." ++ M ++ u "." ++ Y
       ∧ re_lang re_d D ∧ re_lang re_m M ∧ re_lang re_Y Y
       ∧ int D = Return d ∧ int M = Return m ∧ int Y = Return y
       ∧ valid_date y m d = true)
  ∧ (∀ y m d,
       read_DD_MM_YYYY s = Some (y, m, d) → valid_date y m d = true →
       Birthday_init s = Return (mkBirthday (mkDatetime y m d 0 0 0 0)))
  ∧ (¬ is_return (Birthday_init s) → Birthday_init s = Raise invalid_date_format)
  ∧ Birthday_init (u "29.02.2024")
    = Return (mkBirthday (mkDatetime 2024 2 29 0 0 0 0))
  ∧ Birthday_init (u "29.02.2023") = Raise invalid_date_format.
Proof.
  split; [|split; [|split; [|split]]].
  - split.
    + intros [b Hb].
      destruct (Birthday_init_cases s) as [(dt & Hdt & _)|[_ He]];
        [|rewrite He in Hb; discriminate].
      destruct (strptime_parts s dt Hdt)
        as (D & M & Y & d & m & y & Hs & L1 & L2 & L3 & Hd & Hm & Hy & Hnew).
      apply datetime_new_returns in Hnew as [Hvalid _].
      exists D, M, Y, d, m, y. auto 10.
    + intros (D & M & Y & d & m & y & -> & L1 & L2 & L3 & Hd & Hm & Hy & Hvalid).
      unfold Birthday_init.
      rewrite (strptime_of_parts D M Y d m y L1 L2 L3 Hd Hm Hy).
      rewrite (datetime_new_valid _ _ _ _ _ _ _ Hvalid). eexists. reflexivity.
  - intros y m d Hread Hvalid. unfold Birthday_init.
    rewrite (strptime_DD_MM_YYYY s y m d Hread Hvalid). reflexivity.
  - intros Hno. destruct (Birthday_init_cases s) as [(dt & _ & Hb)|[_ He]].
    + exfalso. apply Hno. eexists. exact Hb.
    + exact He.
  - vm_compute. reflexivity.
  - vm_compute. reflexivity.
Qed.

Lemma C9_Birthday_init_accepts_dates_witness :
  read_DD_MM_YYYY (u "05.06.2000") = Some (2000, 6, 5)
  ∧ Birthday_init (u "05.06.2000")
    = Return (mkBirthday (mkDatetime 2000 6 5 0 0 0 0)).
Proof.
  split; [vm_compute; reflexivity|].
  apply (proj1 (proj2 (C9_Birthday_init_accepts_dates (u "05.06.2000")))).
  - vm_compute. reflexivity.
  - vm_compute. reflexivity.
Defined.

(** * Further properties of the program *)

(** ** Splitting and stripping the command line *)

Lemma str_partition_spec (sep : N) (s before after : str) :
  str_partition sep s = Some (before, after) →
  s = before ++ sep :: after ∧ sep ∉ before.
Proof.
  revert before. induction s as [|c s IH]; intros before; simpl; [discriminate|].
  destruct (c =? sep)%N eqn:E.
  - intros [= <- <-]. apply N.eqb_eq in E as ->. split; [reflexivity|].
    apply not_elem_of_nil.
  - destruct (str_partition sep s) as [[b a]|]; [|discriminate].
    intros [= <- <-]. destruct (IH b eq_refl) as [-> Hb]. split; [reflexivity|].
    apply not_elem_of_cons. split; [|exact Hb]. apply N.eqb_neq in E. congruence.
Qed.

Lemma str_partition_none (sep : N) (s : str) :
  str_partition sep s = None → sep ∉ s.
Proof.
  induction s as [|c s IH]; simpl; [intros _; apply not_elem_of_nil|].
  destruct (c =? sep)%N eqn:E; [discriminate|].
  destruct (str_partition sep s) as [[b a]|]; [discriminate|].
  intros _. apply not_elem_of_cons. split; [|apply IH; reflexivity].
  apply N.eqb_neq in E. congruence.
Qed.

Lemma str_split_not_empty (sep : N) (maxsplit : nat) (s : str) :
  str_split sep maxsplit s ≠ [].
Proof.
  destruct maxsplit; simpl; [discriminate|].
  destruct (str_partition sep s) as [[b a]|]; discriminate.
Qed.

Lemma str_join_cons (sep x : str) (l : list str) :
  l ≠ [] → str_join sep (x :: l) = x ++ sep ++ str_join sep l.
Proof. destruct l; [congruence | reflexivity]. Qed.

Lemma str_split_spec (sep : N) (maxsplit : nat) (s : str) :
  str_join [sep] (str_split sep maxsplit s) = s
  ∧ (0 < length (str_split sep maxsplit s) <= S maxsplit)%nat
  ∧ (∀ i part, (S i < length (str_split sep maxsplit s))%nat →
               str_split sep maxsplit s !! i = Some part → sep ∉ part)
  ∧ ((length (str_split sep maxsplit s) <= maxsplit)%nat →
     Forall (fun part => sep ∉ part) (str_split sep maxsplit s)).
Proof.
  revert s. induction maxsplit as [|n IH]; intros s.
  - simpl. split; [reflexivity|]. split; [lia|]. split.
    + intros i part Hi. lia.
    + intros Hlen. lia.
  - simpl. destruct (str_partition sep s) as [[b a]|] eqn:E.
    + apply str_partition_spec in E as [-> Hb].
      destruct (IH a) as (Hj & Hl & Hparts & Hall).
      rewrite str_join_cons by apply str_split_not_empty. rewrite Hj.
      split; [reflexivity|]. split; [simpl; lia|]. split.
      * intros [|i] part Hi; simpl.
        -- intros [= <-]. exact Hb.
        -- apply Hparts. simpl in Hi. lia.
      * simpl. intros Hlen. constructor; [exact Hb|]. apply Hall. lia.
    + apply str_partition_none in E.
      split; [reflexivity|]. split; [simpl; lia|]. split.
      * intros i part Hi. simpl in Hi. lia.
      * intros _. constructor; [exact E | constructor].
Qed.

Lemma str_lstrip_spec (s : str) :
  ∃ l, s = l ++ str_lstrip s
       ∧ Forall (fun c => char_isspace c = true) l
       ∧ ∀ c t, str_lstrip s = c :: t → char_isspace c = false.
Proof.
  induction s as [|x s (l & Hs & Hl & Hhead)]; simpl.
  - exists []. split; [reflexivity|]. split; [constructor | discriminate].
  - destruct (char_isspace x) eqn:E.
    + exists (x :: l). split; [simpl; congruence|].
      split; [constructor; assumption | exact Hhead].
    + exists []. split; [reflexivity|]. split; [constructor|].
      intros c t [= <- <-]. exact E.
Qed.

Lemma str_lstrip_spaces (l s : str) :
  Forall (fun c => char_isspace c = true) l → str_lstrip (l ++ s) = str_lstrip s.
Proof. induction 1 as [|c l Hc _ IH]; simpl; [|rewrite Hc]; auto. Qed.

Lemma str_lstrip_fixed (s : str) :
  (∀ c t, s = c :: t → char_isspace c = false) → str_lstrip s = s.
Proof.
  destruct s as [|c t]; [reflexivity|]. intros H. simpl.
  rewrite (H c t eq_refl). reflexivity.
Qed.

Lemma str_lstrip_app (s r : str) :
  str_lstrip s ≠ [] → str_lstrip (s ++ r) = str_lstrip s ++ r.
Proof.
  induction s as [|c s IH]; simpl; [congruence|].
  destruct (char_isspace c); [exact IH | reflexivity].
Qed.

Lemma str_lstrip_all_spaces (s : str) :
  Forall (fun c => char_isspace c = true) s → str_lstrip s = [].
Proof. induction 1 as [|c l Hc _ IH]; simpl; [|rewrite Hc]; auto. Qed.

Lemma str_lstrip_nil_spaces (s : str) :
  str_lstrip s = [] → Forall (fun c => char_isspace c = true) s.
Proof.
  destruct (str_lstrip_spec s) as (l & Hs & Hl & _). intros E.
  rewrite E, app_nil_r in Hs. subst l. exact Hl.
Qed.

Lemma str_strip_spec (s : str) :
  ∃ l r, s = l ++ str_strip s ++ r
         ∧ Forall (fun c => char_isspace c = true) l
         ∧ Forall (fun c => char_isspace c = true) r
         ∧ (∀ c t, str_strip s = c :: t → char_isspace c = false)
         ∧ (∀ c t, str_strip s = t ++ [c] → char_isspace c = false).
Proof.
  destruct (str_lstrip_spec s) as (l & Hs & Hl & Hhead).
  destruct (str_lstrip_spec (rev (str_lstrip s))) as (r & Hr & Hrs & Hlast).
  unfold str_strip. exists l, (rev r).
  assert (Ht : str_lstrip s = rev (str_lstrip (rev (str_lstrip s))) ++ rev r).
  { rewrite <- rev_app_distr, <- Hr, rev_involutive. reflexivity. }
  split; [rewrite <- Ht; exact Hs|]. split; [exact Hl|].
  split; [apply Forall_rev; exact Hrs|]. split.
  - intros c t E. rewrite E in Ht. simpl in Ht. eapply Hhead. exact Ht.
  - intros c t E. apply (Hlast c (rev t)).
    rewrite <- (rev_involutive (str_lstrip (rev (str_lstrip s)))), E.
    rewrite rev_app_distr. reflexivity.
Qed.

Lemma str_strip_fixed (s : str) :
  (∀ c t, s = c :: t → char_isspace c = false) →
  (∀ c t, s = t ++ [c] → char_isspace c = false) →
  str_strip s = s.
Proof.
  intros Hh Hl. unfold str_strip. rewrite (str_lstrip_fixed s Hh).
  rewrite str_lstrip_fixed; [apply rev_involutive|].
  intros c t E. apply (Hl c (rev t)).
  rewrite <- (rev_involutive s), E. reflexivity.
Qed.

Lemma str_strip_spaces_around (l s r : str) :
  Forall (fun c => char_isspace c = true) l →
  Forall (fun c => char_isspace c = true) r →
  str_strip (l ++ s ++ r) = str_strip s.
Proof.
  intros Hl Hr. unfold str_strip. rewrite (str_lstrip_spaces l _ Hl).
  destruct (str_lstrip s) as [|c t] eqn:E.
  - apply str_lstrip_nil_spaces in E.
    rewrite (str_lstrip_all_spaces (s ++ r)) by (apply Forall_app; split; assumption).
    reflexivity.
  - rewrite str_lstrip_app by (rewrite E; discriminate). rewrite E.
    rewrite rev_app_distr.
    rewrite str_lstrip_spaces by (apply Forall_rev; exact Hr). reflexivity.
Qed.

(** [strip] removes white space at both ends and nothing else: the text
    is its result between two runs of white space, the result neither begins
    nor ends with white space, and stripping it again changes nothing. *)
Lemma str_strip_removes_surrounding_space (s : str) :
  (∃ l r, s = l ++ str_strip s ++ r
          ∧ Forall (fun c => char_isspace c = true) l
          ∧ Forall (fun c => char_isspace c = true) r)
  ∧ (∀ c t, str_strip s = c :: t → char_isspace c = false)
  ∧ (∀ c t, str_strip s = t ++ [c] → char_isspace c = false)
  ∧ str_strip (str_strip s) = str_strip s.
Proof.
  destruct (str_strip_spec s) as (l & r & Hs & Hl & Hr & Hh & Ht).
  split; [exists l, r; auto|]. split; [exact Hh|]. split; [exact Ht|].
  apply str_strip_fixed; assumption.
Qed.

(** X1: white space typed before and after a command line does not change
    how the line is read. *)
Theorem X1_parse_input_ignores_surrounding_space
  (lower : str → str) (l line r : str) :
  Forall (fun c => char_isspace c = true) l →
  Forall (fun c => char_isspace c = true) r →
  parse_input lower (l ++ line ++ r) = parse_input lower line.
Proof.
  intros Hl Hr. unfold parse_input.
  rewrite (str_strip_spaces_around l line r Hl Hr). reflexivity.
Qed.

Lemma X1_parse_input_ignores_surrounding_space_witness :
  parse_input ascii_lower (u "  " ++ u "phone Alice" ++ [9%N; 32%N])
  = parse_input ascii_lower (u "phone Alice").
Proof.
  apply (X1_parse_input_ignores_surrounding_space ascii_lower).
  - repeat constructor.
  - repeat constructor.
Defined.

(** X2: [parse_input] cuts the stripped line at its first two spaces: the
    verb is the lower-cased first word, there are at most two arguments,
    joining the first word and the arguments with spaces gives the stripped
    line back, and only a second argument can hold a space. *)
Theorem X2_parse_input_cuts_at_two_spaces (lower : str → str) (line : str) :
  ∃ word,
    fst (parse_input lower line) = lower word
    ∧ (ch " " ∉ word)
    ∧ str_join (u " ") (word :: snd (parse_input lower line)) = str_strip line
    ∧ (length (snd (parse_input lower line)) <= 2)%nat
    ∧ (∀ arg rest, snd (parse_input lower line) = arg :: rest → ch " " ∉ arg).
Proof.
  unfold parse_input.
  destruct (str_split_spec (ch " ") 2 (str_strip line)) as (Hj & Hl & Hparts & Hall).
  destruct (str_split (ch " ") 2 (str_strip line)) as [|word args] eqn:E;
    [simpl in Hl; lia|].
  assert (Hargs : (if 1 <? len (word :: args) then tl (word :: args) else []) = args).
  { destruct (1 <? len (word :: args)) eqn:H1; [reflexivity|].
    apply Z.ltb_ge in H1. unfold len in H1. simpl in H1.
    destruct args; [reflexivity | simpl in H1; lia]. }
  cbv zeta. cbn [fst snd hd]. rewrite Hargs. exists word.
  split; [reflexivity|]. simpl in Hl.
  assert (Hword : ch " " ∉ word).
  { destruct args as [|a args].
    - assert (H : Forall (fun part => ch " " ∉ part) [word]) by (apply Hall; simpl; lia).
      inversion H; assumption.
    - apply (Hparts 0%nat word); [simpl; lia | reflexivity]. }
  split; [exact Hword|]. split; [exact Hj|]. split; [lia|].
  intros arg rest ->.
  destruct rest as [|b rest].
  - assert (H : Forall (fun part => ch " " ∉ part) [word; arg])
      by (apply Hall; simpl; lia).
    inversion H as [|? ? _ H']; subst. inversion H'; assumption.
  - apply (Hparts 1%nat arg); [simpl; lia | reflexivity].
Qed.
(** ** What a command may change *)

Lemma dict_set_keys {V} (k : str) (v : V) (d : list (str * V)) :
  map fst (dict_set k v d)
  = match dict_get k d with
    | Some _ => map fst d
    | None => map fst d ++ [k]
    end.
Proof.
  induction d as [|[k' v'] d IH]; simpl; [reflexivity|].
  destruct (decide (k' = k)) as [->|Hne]; simpl; [reflexivity|].
  rewrite IH. destruct (dict_get k d); reflexivity.
Qed.

Lemma dict_set_NoDup {V} (k : str) (v : V) (d : list (str * V)) :
  NoDup (map fst d) → NoDup (map fst (dict_set k v d)).
Proof.
  intros H. rewrite dict_set_keys. destruct (dict_get k d) eqn:E; [exact H|].
  apply NoDup_app. split; [exact H|]. split; [|apply NoDup_singleton].
  intros x Hx Hx'. apply list_elem_of_singleton in Hx'. subst x.
  apply dict_get_None in E. contradiction.
Qed.

Lemma dict_set_Forall {V} (P : str * V → Prop) (k : str) (v : V) (d : list (str * V)) :
  Forall P d → P (k, v) → Forall P (dict_set k v d).
Proof.
  intros H Hkv. induction H as [|[k' v'] d Hx Hd IH]; simpl.
  - constructor; [exact Hkv | constructor].
  - destruct (decide (k' = k)); constructor; assumption.
Qed.

Lemma dict_get_set_eq {V} (k : str) (v : V) (d : list (str * V)) :
  dict_get k (dict_set k v d) = Some v.
Proof.
  induction d as [|[k' v'] d IH]; simpl.
  - destruct (decide (k = k)); [reflexivity | congruence].
  - destruct (decide (k' = k)) as [->|Hne]; simpl.
    + destruct (decide (k = k)); [reflexivity | congruence].
    + destruct (decide (k' = k)); [congruence | exact IH].
Qed.

Lemma dict_get_set_ne {V} (k k' : str) (v : V) (d : list (str * V)) :
  k ≠ k' → dict_get k' (dict_set k v d) = dict_get k' d.
Proof.
  intros Hne. induction d as [|[k0 v0] d IH]; simpl.
  - destruct (decide (k = k')); [congruence | reflexivity].
  - destruct (decide (k0 = k)) as [->|H0]; simpl.
    + destruct (decide (k = k')); [congruence | reflexivity].
    + destruct (decide (k0 = k')); [reflexivity | exact IH].
Qed.

Lemma command_effect_wf (name : str) (st st' : State) :
  wf_state st → command_effect name st st' → wf_state st'.
Proof.
  intros [Hnd Hent] (extra & a & r & r' & Hheap & _ & Hr & Hname & _ & Hold & Hbook).
  assert (Ha : (a < length (heap st ++ extra))%nat) by (eapply lookup_lt_Some, Hr).
  assert (Hkeep : Forall (fun e => ∃ x, heap st' !! e.2 = Some x
                                        ∧ Name_value (r_name x) = e.1) (book st)).
  { rewrite Forall_forall in Hent |- *. intros e He.
    destruct (Hent e He) as (re & Hre & Hne). rewrite Hheap.
    destruct (decide (e.2 = a)) as [Heq|Hneq].
    - exists r'. split; [rewrite Heq; apply list_lookup_insert_eq; exact Ha|].
      rewrite Hname. rewrite <- Heq in Hr.
      rewrite lookup_app_l in Hr by (eapply lookup_lt_Some, Hre). congruence.
    - exists re. split; [|exact Hne].
      rewrite list_lookup_insert_ne by congruence.
      rewrite lookup_app_l by (eapply lookup_lt_Some, Hre). exact Hre. }
  destruct Hbook as [Hb|[Hb Hn]]; unfold wf_state; rewrite Hb.
  - split; assumption.
  - split; [apply dict_set_NoDup; exact Hnd|].
    apply dict_set_Forall; [exact Hkeep|].
    exists r'. split; [|exact Hn]. rewrite Hheap.
    apply list_lookup_insert_eq. exact Ha.
Qed.

Lemma command_effect_fields (name : str) (st st' : State) :
  Forall fields_valid (heap st) → command_effect name st st' →
  Forall fields_valid (heap st').
Proof.
  intros Hall (extra & a & r & r' & Hheap & Hextra & Hr & _ & Hvalid & _ & _).
  assert (H : Forall fields_valid (heap st ++ extra))
    by (apply Forall_app; split; assumption).
  rewrite Hheap. apply Forall_insert; [exact H|]. apply Hvalid.
  rewrite Forall_forall in H. apply H. eapply list_elem_of_lookup_2, Hr.
Qed.

Lemma command_effect_frame (name other : str) (st st' : State) :
  wf_state st → command_effect name st st' → other ≠ name →
  record_of other st' = record_of other st.
Proof.
  intros Hwf (extra & a & r & r' & Hheap & _ & Hr & _ & _ & Hold & Hbook) Hne.
  assert (Hget : dict_get other (book st') = dict_get other (book st)).
  { destruct Hbook as [->|[-> _]]; [reflexivity|].
    apply dict_get_set_ne. congruence. }
  unfold record_of. rewrite Hget.
  destruct (dict_get other (book st)) as [b|] eqn:E; [|reflexivity].
  simpl. f_equal.
  destruct (wf_state_allocated st other b Hwf E) as (rb & Hrb & Hnb).
  assert (Hlt : (b < length (heap st))%nat) by (eapply lookup_lt_Some, Hrb).
  assert (Hba : b ≠ a).
  { intros ->. specialize (Hold Hlt).
    destruct (wf_state_allocated st name a Hwf Hold) as (ra & Hra & Hna).
    congruence. }
  unfold deref. rewrite Hheap, list_lookup_insert_ne by congruence.
  rewrite lookup_app_l by exact Hlt. reflexivity.
Qed.

Lemma accepted_prefix_valid (phones : list str) :
  Forall (fun p => ten_unicode_digits (Phone_value p)) (accepted_prefix phones).
Proof.
  induction phones as [|phone phones IH]; simpl; [constructor|].
  destruct (Phone_init_cases phone) as [[Hv He]|[_ He]]; rewrite He;
    constructor; assumption.
Qed.

Lemma Birthday_init_valid (s : str) (b : Birthday) :
  Birthday_init s = Return b → valid_birthday b.
Proof.
  intros Hb. destruct (Birthday_init_cases s) as [(dt & Hdt & He)|[_ He]];
    rewrite He in Hb; [|discriminate]. injection Hb as <-.
  destruct (strptime_parts s dt Hdt)
    as (D & M & Y & d & m & y & _ & _ & _ & _ & _ & _ & _ & Hnew).
  apply datetime_new_returns in Hnew as [Hvalid ->].
  unfold valid_birthday. simpl. auto.
Qed.

Lemma change_phone_from_effect (self : RecordObj) (old_phone new_phone : str)
  (rest : list Phone) (i : nat) :
  snd (change_phone_from i rest old_phone new_phone self) = self
  ∨ ∃ q j, Phone_init new_phone = Return q
           ∧ snd (change_phone_from i rest old_phone new_phone self)
             = set_phones (fun phones => <[j := q]> phones) self.
Proof.
  revert i. induction rest as [|x rest IH]; intros i; simpl.
  - left. reflexivity.
  - destruct (decide (Phone_value x = old_phone)); [|apply IH].
    rewrite change_phone_replace. destruct (Phone_init new_phone) as [q|err].
    + right. exists q, i. auto.
    + left. reflexivity.
Qed.

Lemma Phone_init_value (s : str) (p : Phone) :
  Phone_init s = Return p → ten_unicode_digits (Phone_value p).
Proof.
  destruct (Phone_init_cases s) as [[Hv He]|[_ He]]; rewrite He;
    [|discriminate]. intros [= <-]. exact Hv.
Qed.

Lemma Record_change_phone_effect (self : RecordObj) (old_phone new_phone : str) :
  let self' := snd (Record_change_phone old_phone new_phone self) in
  r_name self' = r_name self
  ∧ r_birthday self' = r_birthday self
  ∧ length (r_phones self') = length (r_phones self)
  ∧ (fields_valid self → fields_valid self').
Proof.
  unfold Record_change_phone, bind, gets, id.
  destruct (change_phone_from_effect self old_phone new_phone (r_phones self) 0)
    as [->|(q & j & Hq & ->)]; cbn zeta.
  - auto.
  - unfold set_phones; simpl.
    split; [reflexivity|]. split; [reflexivity|]. split; [apply length_insert|].
    intros [Hp Hb]. split; [|exact Hb]. simpl.
    apply Forall_insert; [exact Hp|]. eapply Phone_init_value, Hq.
Qed.

Lemma Record_add_birthday_effect (self : RecordObj) (text : str) :
  let self' := snd (Record_add_birthday text self) in
  r_name self' = r_name self
  ∧ r_phones self' = r_phones self
  ∧ (fields_valid self → fields_valid self').
Proof.
  destruct (r_birthday self) as [b|] eqn:E; cbn zeta.
  - rewrite (add_birthday_set self text b E). auto.
  - rewrite (add_birthday_unset self text E).
    destruct (Birthday_init text) as [b|e] eqn:Hb; simpl; [|auto].
    split; [reflexivity|]. split; [reflexivity|].
    intros [Hp _]. split; [exact Hp|]. simpl.
    intros b' [= <-]. eapply Birthday_init_valid, Hb.
Qed.

Lemma call_effect {A} (name : str) (a : nat) (method : SE RecordObj A) (st : State)
  (r : RecordObj) :
  dict_get name (book st) = Some a →
  heap st !! a = Some r →
  r_name (snd (method r)) = r_name r →
  (fields_valid r → fields_valid (snd (method r))) →
  command_effect name st (snd (call a method st)).
Proof.
  intros Hget Hr Hname Hvalid.
  exists [], a, r, (snd (method r)).
  rewrite app_nil_r. unfold call. rewrite (deref_lookup _ _ _ Hr).
  destruct (method r) as [o r']. simpl in *.
  split; [reflexivity|]. split; [constructor|]. split; [exact Hr|].
  split; [exact Hname|]. split; [exact Hvalid|]. split; [intros _; exact Hget|].
  left. reflexivity.
Qed.

Lemma change_contact_effect (args : list str) (st : State) :
  wf_state st →
  snd (change_contact args st) = st
  ∨ ∃ name rest, args = name :: rest
                 ∧ command_effect name st (snd (change_contact args st)).
Proof.
  intros Hwf.
  destruct args as [|name [|old_phone [|new_phone [|x args]]]];
    try (left; reflexivity).
  unfold change_contact, input_error, bind, gets.
  destruct (dict_get name (book st)) as [a|] eqn:Hget; [|left; reflexivity].
  right. exists name, [old_phone; new_phone]. split; [reflexivity|].
  destruct (wf_state_allocated st name a Hwf Hget) as (r & Hr & _).
  destruct (Record_change_phone_effect r old_phone new_phone) as (Hn & _ & _ & Hv).
  pose proof (call_effect name a (Record_change_phone old_phone new_phone) st r
                Hget Hr Hn Hv) as H.
  destruct (call a (Record_change_phone old_phone new_phone) st) as [[o|e] st'];
    exact H.
Qed.

Lemma add_birthday_effect (args : list str) (st : State) :
  wf_state st →
  snd (add_birthday args st) = st
  ∨ ∃ name rest, args = name :: rest
                 ∧ command_effect name st (snd (add_birthday args st)).
Proof.
  intros Hwf.
  destruct args as [|name [|birthday [|x args]]]; try (left; reflexivity).
  unfold add_birthday, input_error, bind, gets.
  destruct (dict_get name (book st)) as [a|] eqn:Hget; [|left; reflexivity].
  right. exists name, [birthday]. split; [reflexivity|].
  destruct (wf_state_allocated st name a Hwf Hget) as (r & Hr & _).
  destruct (Record_add_birthday_effect r birthday) as (Hn & _ & Hv).
  pose proof (call_effect name a (Record_add_birthday birthday) st r
                Hget Hr Hn Hv) as H.
  destruct (call a (Record_add_birthday birthday) st) as [[o|e] st']; exact H.
Qed.

Lemma fields_valid_init (name : str) : fields_valid (Record_init name).
Proof. split; [constructor | discriminate]. Qed.

Lemma add_contact_effect (args : list str) (st : State) :
  wf_state st →
  snd (add_contact args st) = st
  ∨ ∃ name rest, args = name :: rest
                 ∧ command_effect name st (snd (add_contact args st)).
Proof.
  intros Hwf. destruct args as [|name [|phone phones]]; try (left; reflexivity).
  right. exists name, (phone :: phones). split; [reflexivity|].
  assert (Halloc : ∀ a, dict_get name (book st) = Some a → (a < length (heap st))%nat).
  { intros a Ha. destruct (wf_state_allocated st name a Hwf Ha) as (r & Hr & _).
    eapply lookup_lt_Some, Hr. }
  rewrite (add_contact_run name phone phones st Halloc).
  set (h1 := heap st ++ [Record_init name]).
  set (a := default (length (heap st)) (dict_get name (book st))).
  set (r' := set_phones (fun ps => ps ++ accepted_prefix (phone :: phones)) (deref h1 a)).
  assert (Ha : h1 !! a = Some (deref h1 a) ∧ Name_value (r_name (deref h1 a)) = name
               ∧ ((a < length (heap st))%nat → dict_get name (book st) = Some a)).
  { unfold a, h1. destruct (dict_get name (book st)) as [a0|] eqn:Hget;
      cbn [default from_option id].
    - destruct (wf_state_allocated st name a0 Hwf Hget) as (r & Hr & Hn).
      assert (H1 : (heap st ++ [Record_init name]) !! a0 = Some r)
        by (rewrite lookup_app_l; [exact Hr | eapply lookup_lt_Some, Hr]).
      rewrite (deref_lookup _ _ _ H1). auto.
    - assert (H1 : (heap st ++ [Record_init name]) !! length (heap st)
                   = Some (Record_init name)) by (apply list_lookup_middle; reflexivity).
      rewrite (deref_lookup _ _ _ H1). repeat split; [exact H1|]. lia. }
  destruct Ha as (Hr & Hn & Hold).
  assert (Hr' : (<[a := r']> h1) !! a = Some r')
    by (apply list_lookup_insert_eq; eapply lookup_lt_Some, Hr).
  assert (Heff : ∀ bk, (bk = book st ∨ bk = dict_set name a (book st)) →
                       command_effect name st (mkState (<[a := r']> h1) bk)).
  { intros bk Hbk. exists [Record_init name], a, (deref h1 a), r'. cbn [heap book].
    split; [reflexivity|]. split; [apply Forall_singleton, fields_valid_init|].
    split; [exact Hr|]. split; [reflexivity|]. split.
    - intros [Hp Hb]. split; [|exact Hb]. unfold r', set_phones. cbn [r_phones].
      apply Forall_app. split; [exact Hp | apply accepted_prefix_valid].
    - split; [exact Hold|]. destruct Hbk as [->| ->]; [left; reflexivity|].
      right. split; [reflexivity | exact Hn]. }
  destruct (forallb accepts (phone :: phones)); cbn [snd].
  - apply Heff. right. rewrite (deref_lookup _ _ _ Hr'). unfold r'.
    cbn [set_phones r_name]. rewrite Hn. reflexivity.
  - apply Heff. left. reflexivity.
Qed.

(** ** The commands and the state *)

Lemma show_phone_state (args : list str) (st : State) : snd (show_phone args st) = st.
Proof.
  unfold show_phone, input_error, bind, gets, raise, ret.
  destruct args as [|name [|x args]]; try reflexivity.
  destruct (dict_get name (book st)); reflexivity.
Qed.

Lemma show_all_state (st : State) : snd (show_all tt st) = st.
Proof.
  unfold show_all, input_error, bind, gets, ret, id.
  destruct (book st); reflexivity.
Qed.

Lemma show_birthday_state (args : list str) (st : State) :
  snd (show_birthday args st) = st.
Proof.
  unfold show_birthday, input_error, bind, gets, raise, ret, id.
  destruct args as [|name [|x args]]; try reflexivity.
  destruct (dict_get name (book st)) as [a|]; [|reflexivity].
  destruct (r_birthday (deref (heap st) a)); reflexivity.
Qed.

Lemma birthdays_state (today : datetime) (args : option (list str)) (st : State) :
  snd (birthdays today args st) = st.
Proof.
  unfold birthdays, input_error, bind, ret.
  destruct (AddressBook_get_upcoming_birthdays today st) as [[|x l]|e]; reflexivity.
Qed.

Lemma snd_print (r : outcome str * State) : snd (print r) = snd r.
Proof. destruct r as [[t|e] st]; reflexivity. Qed.

Lemma main_step_effect (lower : str → str) (now : datetime) (line : str) (st : State) :
  wf_state st →
  snd (main_step lower now line st) = st
  ∨ ∃ name rest,
      snd (parse_input lower line) = name :: rest
      ∧ command_effect name st (snd (main_step lower now line st)).
Proof.
  intros Hwf. unfold main_step.
  destruct (parse_input lower line) as [command args]. cbn [snd].
  repeat match goal with
  | |- context [if ?b then _ else _] => destruct b
  end; try (left; reflexivity); rewrite snd_print.
  - apply add_contact_effect, Hwf.
  - apply change_contact_effect, Hwf.
  - left. apply show_phone_state.
  - left. apply show_all_state.
  - apply add_birthday_effect, Hwf.
  - left. apply show_birthday_state.
  - left. apply birthdays_state.
Qed.

Lemma main_step_invariant (lower : str → str) (now : datetime) (line : str)
  (st : State) :
  wf_state st → Forall fields_valid (heap st) →
  wf_state (snd (main_step lower now line st))
  ∧ Forall fields_valid (heap (snd (main_step lower now line st))).
Proof.
  intros Hwf Hf.
  destruct (main_step_effect lower now line st Hwf) as [->|(name & rest & _ & H)].
  - auto.
  - split; [eapply command_effect_wf | eapply command_effect_fields]; eassumption.
Qed.

Lemma main_loop_invariant (lower : str → str) (inputs : list (datetime * str)) :
  ∀ st, wf_state st → Forall fields_valid (heap st) →
        wf_state (snd (main_loop lower inputs st))
        ∧ Forall fields_valid (heap (snd (main_loop lower inputs st))).
Proof.
  induction inputs as [|[now line] inputs IH]; intros st Hwf Hf; [simpl; auto|].
  cbn [main_loop].
  destruct (main_step_invariant lower now line st Hwf Hf) as [Hwf' Hf'].
  destruct (main_step lower now line st) as [[t|t|e] st']; cbn [snd] in *; auto.
  specialize (IH st' Hwf' Hf').
  destruct (main_loop lower inputs st') as [out st'']. exact IH.
Qed.

Lemma record_of_allocated (name : str) (st : State) (r : RecordObj) :
  wf_state st → record_of name st = Some r →
  r ∈ heap st ∧ Name_value (r_name r) = name.
Proof.
  unfold record_of. intros Hwf H.
  destruct (dict_get name (book st)) as [a|] eqn:E; [|discriminate].
  destruct (wf_state_allocated st name a Hwf E) as (r0 & Hr0 & Hn).
  simpl in H. rewrite (deref_lookup _ _ _ Hr0) in H. injection H as <-.
  split; [eapply list_elem_of_lookup_2, Hr0 | exact Hn].
Qed.

(** X3: whatever is typed, the loop of [main] is never ended by an exception;
    it handles at most one line per step, and the farewell of [close] or
    [exit], when it comes, is its last output. *)
Theorem X3_main_loop_never_crashes
  (lower : str → str) (inputs : list (datetime * str)) (st : State) :
  (∀ e, Crashed e ∉ fst (main_loop lower inputs st))
  ∧ (length (fst (main_loop lower inputs st)) <= length inputs)%nat
  ∧ (∀ i text, fst (main_loop lower inputs st) !! i = Some (Exited text) →
               S i = length (fst (main_loop lower inputs st))).
Proof.
  revert st. induction inputs as [|[now line] inputs IH]; intros st.
  - simpl. split; [intros e; apply not_elem_of_nil|]. split; [lia|].
    intros i text H. rewrite lookup_nil in H. discriminate.
  - cbn [main_loop].
    pose proof (main_step_never_crashes lower now line st) as Hno.
    destruct (main_step lower now line st) as [[t|t|e] st']; cbn [fst] in *.
    + destruct (IH st') as (H1 & H2 & H3).
      destruct (main_loop lower inputs st') as [out st'']. cbn [fst] in *.
      split; [|split].
      * intros e He. apply elem_of_cons in He as [He|He]; [discriminate|].
        exact (H1 e He).
      * simpl. lia.
      * intros [|i] text; simpl; [discriminate|]. intros H.
        rewrite (H3 i text H). reflexivity.
    + split; [|split].
      * intros e He. apply list_elem_of_singleton in He. discriminate.
      * simpl. lia.
      * intros [|i] text; simpl; [reflexivity|]. rewrite lookup_nil. discriminate.
    + exfalso. exact (Hno e eq_refl).
Qed.

(** X4: one turn of the loop keeps the book well formed: its keys stay
    distinct, and each key is the name of the allocated record it refers
    to. *)
Theorem X4_main_step_keeps_book_well_formed
  (lower : str → str) (now : datetime) (line : str) (st : State) :
  wf_state st → wf_state (snd (main_step lower now line st)).
Proof.
  intros Hwf.
  destruct (main_step_effect lower now line st Hwf) as [->|(name & rest & _ & H)];
    [exact Hwf|].
  eapply command_effect_wf; eassumption.
Qed.

Lemma X4_main_step_keeps_book_well_formed_witness :
  wf_state (snd (main_step ascii_lower (mkDatetime 2024 6 1 12 0 0 0)
                           (u "add Alice 1234567890")
                           (mkState [mkRecord (mkName (u "Bob"))
                                              [mkPhone (u "5555555555")] None]
                                    [(u "Bob", 0%nat)]))).
Proof.
  apply (X4_main_step_keeps_book_well_formed ascii_lower). exact wf_state_example.
Defined.

(** X5: starting from a well-formed book whose records hold valid fields,
    after any sequence of command lines every contact of the book still holds
    only phones of ten digit characters and, if it has a birthday, a date of
    the calendar at midnight. *)
Theorem X5_main_loop_keeps_fields_valid
  (lower : str → str) (inputs : list (datetime * str)) (st : State) :
  wf_state st →
  Forall fields_valid (heap st) →
  ∀ name r,
    record_of name (snd (main_loop lower inputs st)) = Some r →
    Name_value (r_name r) = name ∧ fields_valid r.
Proof.
  intros Hwf Hf name r Hr.
  destruct (main_loop_invariant lower inputs st Hwf Hf) as [Hwf' Hf'].
  destruct (record_of_allocated name _ r Hwf' Hr) as [Hin Hn].
  split; [exact Hn|]. rewrite Forall_forall in Hf'. apply Hf', Hin.
Qed.

Lemma X5_main_loop_keeps_fields_valid_witness :
  let clock := mkDatetime 2024 6 1 12 0 0 0 in
  let st := snd (main_loop ascii_lower
                   [(clock, u "add Alice 1234567890");
                    (clock, u "add-birthday Alice 05.06.2000");
                    (clock, u "change Alice 1234567890 0987654321")]
                   (mkState [] [])) in
  ∃ r, record_of (u "Alice") st = Some r
       ∧ Name_value (r_name r) = u "Alice" ∧ fields_valid r.
Proof.
  intros clock st. eexists. split; [vm_compute; reflexivity|].
  apply (X5_main_loop_keeps_fields_valid ascii_lower
           [(clock, u "add Alice 1234567890");
            (clock, u "add-birthday Alice 05.06.2000");
            (clock, u "change Alice 1234567890 0987654321")]
           (mkState [] [])).
  - split; cbn [heap book]; [apply NoDup_nil_2 | apply Forall_nil_2].
  - apply Forall_nil_2.
  - vm_compute. reflexivity.
Defined.

(** X6: a command line changes no contact but the one named by its first
    argument: the record of every other name is the same after the turn. *)
Theorem X6_main_step_leaves_other_contacts
  (lower : str → str) (now : datetime) (line : str) (st : State) (other : str) :
  wf_state st →
  head (snd (parse_input lower line)) ≠ Some other →
  record_of other (snd (main_step lower now line st)) = record_of other st.
Proof.
  intros Hwf Hne.
  destruct (main_step_effect lower now line st Hwf) as [->|(name & rest & Hp & H)];
    [reflexivity|].
  eapply command_effect_frame; [exact Hwf | exact H|].
  intros ->. rewrite Hp in Hne. simpl in Hne. congruence.
Qed.

Lemma X6_main_step_leaves_other_contacts_witness :
  let st := mkState [mkRecord (mkName (u "Bob")) [mkPhone (u "5555555555")] None]
                    [(u "Bob", 0%nat)] in
  record_of (u "Bob")
    (snd (main_step ascii_lower (mkDatetime 2024 6 1 12 0 0 0)
                    (u "add Alice 1234567890") st))
  = record_of (u "Bob") st.
Proof.
  intros st.
  apply (X6_main_step_leaves_other_contacts ascii_lower).
  - exact wf_state_example.
  - vm_compute. discriminate.
Defined.

(** X7: the commands that only show something, [phone], [all],
    [show-birthday] and [birthdays], leave the state as it was, whatever
    their arguments and whether they succeed or not. *)
Theorem X7_queries_leave_the_state
  (args : list str) (today : datetime) (st : State) :
  snd (show_phone args st) = st
  ∧ snd (show_all tt st) = st
  ∧ snd (show_birthday args st) = st
  ∧ snd (birthdays today None st) = st
  ∧ snd (birthdays today (Some args) st) = st.
Proof.
  split; [apply show_phone_state|]. split; [apply show_all_state|].
  split; [apply show_birthday_state|]. split; apply birthdays_state.
Qed.

(** ** Adding phones *)

Lemma phones_of_record_of (name : str) (st : State) :
  phones_of name st = match record_of name st with
                      | Some r => r_phones r
                      | None => []
                      end.
Proof.
  unfold phones_of, record_of. destruct (dict_get name (book st)); reflexivity.
Qed.

(** The phones under [name] after [add_contact]: the accepted texts that come
    before the first rejected one are appended, unless the name was new and a
    text was rejected. *)
Lemma add_contact_phones (st : State) (name phone : str) (phones : list str) :
  wf_state st →
  phones_of name (snd (add_contact (name :: phone :: phones) st))
  = match dict_get name (book st) with
    | Some _ => phones_of name st ++ accepted_prefix (phone :: phones)
    | None => if forallb accepts (phone :: phones)
              then accepted_prefix (phone :: phones) else []
    end.
Proof.
  intros Hwf.
  assert (Halloc : ∀ a, dict_get name (book st) = Some a → (a < length (heap st))%nat).
  { intros a Ha. destruct (wf_state_allocated st name a Hwf Ha) as (r & Hr & _).
    eapply lookup_lt_Some, Hr. }
  rewrite (add_contact_run name phone phones st Halloc).
  unfold phones_of at 2.
  destruct (dict_get name (book st)) as [a|] eqn:Hget; cbn [default from_option id].
  - destruct (wf_state_allocated st name a Hwf Hget) as (r & Hr & Hn).
    assert (H1 : (heap st ++ [Record_init name]) !! a = Some r)
      by (rewrite lookup_app_l; [exact Hr | eapply lookup_lt_Some, Hr]).
    rewrite (deref_lookup _ _ _ H1), (deref_lookup _ _ _ Hr).
    set (r' := set_phones (fun ps => ps ++ accepted_prefix (phone :: phones)) r).
    assert (H2 : (<[a := r']> (heap st ++ [Record_init name])) !! a = Some r')
      by (apply list_lookup_insert_eq; eapply lookup_lt_Some, H1).
    rewrite (deref_lookup _ _ _ H2). cbn [r' set_phones r_name]. rewrite Hn.
    rewrite (dict_set_same _ _ _ Hget).
    assert (H : phones_of name (mkState (<[a := r']> (heap st ++ [Record_init name]))
                                        (book st))
                = r_phones r ++ accepted_prefix (phone :: phones)).
    { unfold phones_of. cbn [heap book]. rewrite Hget.
      rewrite (deref_lookup _ _ _ H2). reflexivity. }
    destruct (forallb accepts (phone :: phones)); cbn [snd]; exact H.
  - assert (H1 : (heap st ++ [Record_init name]) !! length (heap st)
                 = Some (Record_init name)) by (apply list_lookup_middle; reflexivity).
    rewrite (deref_lookup _ _ _ H1).
    set (r' := set_phones (fun ps => ps ++ accepted_prefix (phone :: phones))
                          (Record_init name)).
    assert (H2 : (<[length (heap st) := r']> (heap st ++ [Record_init name]))
                 !! length (heap st) = Some r')
      by (apply list_lookup_insert_eq; eapply lookup_lt_Some, H1).
    rewrite (deref_lookup _ _ _ H2).
    destruct (forallb accepts (phone :: phones)); cbn [snd].
    + cbn [r' set_phones r_name Record_init Name_value].
      rewrite (dict_set_new _ _ _ Hget). unfold phones_of. cbn [heap book].
      rewrite (dict_get_app_new _ _ _ Hget). rewrite (deref_lookup _ _ _ H2).
      reflexivity.
    + unfold phones_of. cbn [heap book]. rewrite Hget. reflexivity.
Qed.

(** X8: [add_contact] on a contact that is already in the book appends the
    accepted phones that come before the first rejected one, and keeps them
    also when it answers with the format error: there is no rollback.  The
    book itself is not changed. *)
Theorem X8_add_contact_keeps_accepted_phones
  (st : State) (name : str) (phones : list str) :
  wf_state st →
  dict_get name (book st) ≠ None →
  phones ≠ [] →
  fst (add_contact (name :: phones) st)
  = Return (if forallb accepts phones then added_message name phones
            else u "Phone number must be 10 digits")
  ∧ phones_of name (snd (add_contact (name :: phones) st))
    = phones_of name st ++ accepted_prefix phones
  ∧ book (snd (add_contact (name :: phones) st)) = book st.
Proof.
  intros Hwf Hin Hne. destruct phones as [|phone phones]; [congruence|].
  split; [|split].
  - assert (Halloc : ∀ a, dict_get name (book st) = Some a
                          → (a < length (heap st))%nat).
    { intros a Ha. destruct (wf_state_allocated st name a Hwf Ha) as (r & Hr & _).
      eapply lookup_lt_Some, Hr. }
    rewrite (add_contact_run name phone phones st Halloc).
    destruct (forallb accepts (phone :: phones)); reflexivity.
  - rewrite (add_contact_phones st name phone phones Hwf).
    destruct (dict_get name (book st)); [reflexivity | congruence].
  - destruct (dict_get name (book st)) as [a|] eqn:Hget; [|congruence].
    assert (Halloc : ∀ a, dict_get name (book st) = Some a
                          → (a < length (heap st))%nat).
    { intros a' Ha. destruct (wf_state_allocated st name a' Hwf Ha) as (r & Hr & _).
      eapply lookup_lt_Some, Hr. }
    rewrite (add_contact_run name phone phones st Halloc).
    destruct (forallb accepts (phone :: phones)); cbn [snd book]; [|reflexivity].
    rewrite Hget. cbn [default from_option id].
    destruct (wf_state_allocated st name a Hwf Hget) as (r & Hr & Hn).
    assert (H1 : (heap st ++ [Record_init name]) !! a = Some r)
      by (rewrite lookup_app_l; [exact Hr | eapply lookup_lt_Some, Hr]).
    rewrite (deref_lookup _ _ _ H1).
    erewrite deref_lookup
      by (apply list_lookup_insert_eq; eapply lookup_lt_Some, H1).
    cbn [set_phones r_name]. rewrite Hn. apply dict_set_same, Hget.
Qed.

Lemma X8_add_contact_keeps_accepted_phones_witness :
  let st := mkState [mkRecord (mkName (u "Bob")) [mkPhone (u "5555555555")] None]
                    [(u "Bob", 0%nat)] in
  fst (add_contact [u "Bob"; u "1234567890"; u "12345"; u "0987654321"] st)
  = Return (u "Phone number must be 10 digits")
  ∧ phones_of (u "Bob")
      (snd (add_contact [u "Bob"; u "1234567890"; u "12345"; u "0987654321"] st))
    = [mkPhone (u "5555555555"); mkPhone (u "1234567890")]
  ∧ book (snd (add_contact [u "Bob"; u "1234567890"; u "12345"; u "0987654321"] st))
    = book st.
Proof.
  intros st.
  apply (X8_add_contact_keeps_accepted_phones st (u "Bob")
           [u "1234567890"; u "12345"; u "0987654321"]).
  - exact wf_state_example.
  - vm_compute. discriminate.
  - discriminate.
Defined.

Lemma show_phone_known (name : str) (st : State) :
  dict_get name (book st) ≠ None →
  show_phone [name] st
  = (Return (name ++ u ": "
             ++ str_join (u ", ") (map Phone_value (phones_of name st))), st).
Proof.
  intros H. unfold show_phone, input_error, bind, gets, ret, phones_of.
  destruct (dict_get name (book st)); [reflexivity | congruence].
Qed.

(** X9: after [add_contact] with one accepted phone, [show_phone] on the
    same name lists the phones the contact had before, then the new one. *)
Theorem X9_show_phone_after_add_contact (st : State) (name phone : str) :
  wf_state st →
  is_return (Phone_init phone) →
  show_phone [name] (snd (add_contact [name; phone] st))
  = (Return (name ++ u ": "
             ++ str_join (u ", ")
                  (map Phone_value (phones_of name st) ++ [phone])),
     snd (add_contact [name; phone] st)).
Proof.
  intros Hwf Hok.
  assert (Hall : Forall (fun p => is_return (Phone_init p)) [phone])
    by (apply Forall_singleton; exact Hok).
  destruct (add_contact_accepted st name phone [] Hwf Hall)
    as (st' & Hrun & Hwf' & Hcount & Hph).
  rewrite Hrun. cbn [snd].
  assert (Hin : dict_get name (book st') ≠ None).
  { intros Hnone. apply dict_get_None in Hnone.
    rewrite (count_key_absent _ _ Hnone) in Hcount. discriminate. }
  rewrite (show_phone_known name st' Hin), Hph, map_app. reflexivity.
Qed.

Lemma X9_show_phone_after_add_contact_witness :
  let st := mkState [mkRecord (mkName (u "Bob")) [mkPhone (u "5555555555")] None]
                    [(u "Bob", 0%nat)] in
  show_phone [u "Bob"] (snd (add_contact [u "Bob"; u "1234567890"] st))
  = (Return (u "Bob" ++ u ": "
             ++ str_join (u ", ")
                  (map Phone_value (phones_of (u "Bob") st) ++ [u "1234567890"])),
     snd (add_contact [u "Bob"; u "1234567890"] st)).
Proof.
  intros st. apply (X9_show_phone_after_add_contact st (u "Bob") (u "1234567890")).
  - exact wf_state_example.
  - eexists. vm_compute. reflexivity.
Defined.

(** X10: a line read as the [add] command adds at most one phone: for every
    name, the phones after the turn are the phones before it, followed by at
    most one more.  (The phones typed after the first reach the handler as
    one argument.) *)
Theorem X10_add_line_appends_at_most_one_phone
  (lower : str → str) (now : datetime) (line : str) (st : State) (name : str) :
  wf_state st →
  fst (parse_input lower line) = u "add" →
  ∃ more,
    phones_of name (snd (main_step lower now line st)) = phones_of name st ++ more
    ∧ (length more <= 1)%nat.
Proof.
  intros Hwf Hadd. unfold main_step.
  pose proof (parse_input_at_most_two_args lower line) as Hlen.
  destruct (parse_input lower line) as [command args].
  simpl in Hadd, Hlen. subst command.
  change (bool_decide (u "add" = u "close")) with false.
  change (bool_decide (u "add" = u "exit")) with false.
  change (bool_decide (u "add" = u "hello")) with false.
  change (bool_decide (u "add" = u "add")) with true.
  cbn [orb]. rewrite snd_print.
  destruct args as [|who [|phone [|x args]]]; [| |clear Hlen|simpl in Hlen; lia].
  - exists []. rewrite app_nil_r. split; [reflexivity | simpl; lia].
  - exists []. rewrite app_nil_r. split; [reflexivity | simpl; lia].
  - destruct (decide (name = who)) as [->|Hne].
    + rewrite (add_contact_phones st who phone [] Hwf).
      assert (Hone : (length (accepted_prefix [phone]) <= 1)%nat)
        by (simpl; destruct (Phone_init phone); simpl; lia).
      destruct (dict_get who (book st)) eqn:Hget.
      * eexists. split; [reflexivity | exact Hone].
      * unfold phones_of. rewrite Hget. cbn [app].
        destruct (forallb accepts [phone]);
          eexists; (split; [reflexivity|]); [exact Hone | simpl; lia].
    + exists []. rewrite app_nil_r. split; [|simpl; lia].
      rewrite !phones_of_record_of.
      destruct (add_contact_effect [who; phone] st Hwf)
        as [->|(n & rest & [= <- <-] & Heff)]; [reflexivity|].
      rewrite (command_effect_frame who name st _ Hwf Heff Hne). reflexivity.
Qed.

Lemma X10_add_line_appends_at_most_one_phone_witness :
  let st := mkState [mkRecord (mkName (u "Bob")) [mkPhone (u "5555555555")] None]
                    [(u "Bob", 0%nat)] in
  ∃ more,
    phones_of (u "Bob")
      (snd (main_step ascii_lower (mkDatetime 2024 6 1 12 0 0 0)
                      (u "add Bob 1234567890 0987654321") st))
    = phones_of (u "Bob") st ++ more
    ∧ (length more <= 1)%nat.
Proof.
  intros st. apply (X10_add_line_appends_at_most_one_phone ascii_lower).
  - exact wf_state_example.
  - vm_compute. reflexivity.
Defined.

(** X11: [add_record] binds the name of the record to it: looking the name up
    in the book afterwards gives the record, every other name is looked up as
    before, the heap is not touched, distinct keys stay distinct, and adding
    the same record again changes nothing. *)
Theorem X11_add_record_lookup (st : State) (a : nat) (r : RecordObj) :
  heap st !! a = Some r →
  let st' := snd (AddressBook_add_record a st) in
  dict_get (Name_value (r_name r)) (book st') = Some a
  ∧ (∀ other, other ≠ Name_value (r_name r) →
              dict_get other (book st') = dict_get other (book st))
  ∧ heap st' = heap st
  ∧ (NoDup (map fst (book st)) → NoDup (map fst (book st')))
  ∧ snd (AddressBook_add_record a st') = st'.
Proof.
  intros Hr. unfold AddressBook_add_record, bind, gets, modify, set_book.
  cbn [snd heap book]. rewrite (deref_lookup _ _ _ Hr).
  split; [apply dict_get_set_eq|].
  split; [intros other Hne; apply dict_get_set_ne; congruence|].
  split; [reflexivity|]. split; [apply dict_set_NoDup|].
  rewrite (dict_set_same _ a (dict_set _ a (book st))); [reflexivity|].
  apply dict_get_set_eq.
Qed.

Lemma X11_add_record_lookup_witness :
  let st := mkState [Record_init (u "Alice")] [] in
  let st' := snd (AddressBook_add_record 0 st) in
  dict_get (u "Alice") (book st') = Some 0%nat
  ∧ (∀ other, other ≠ u "Alice" →
              dict_get other (book st') = dict_get other (book st))
  ∧ heap st' = heap st
  ∧ (NoDup (map fst (book st)) → NoDup (map fst (book st')))
  ∧ snd (AddressBook_add_record 0 st') = st'.
Proof.
  intros st.
  apply (X11_add_record_lookup st 0 (Record_init (u "Alice"))). reflexivity.
Defined.

(** ** Printing and reading a date *)

Lemma digit_char_ascii (n : Z) : char_is_ascii_digit (digit_char n) = true.
Proof.
  unfold char_is_ascii_digit, digit_char.
  pose proof (Z.mod_pos_bound n 10 ltac:(lia)) as H.
  apply andb_true_iff. split; apply N.leb_le; lia.
Qed.

Lemma digit_char_value (n : Z) : ascii_digit_value (digit_char n) = n mod 10.
Proof.
  unfold ascii_digit_value, digit_char.
  pose proof (Z.mod_pos_bound n 10 ltac:(lia)) as H. lia.
Qed.

Lemma digit_char_of_value (c : N) (n : Z) :
  char_is_ascii_digit c = true → n mod 10 = ascii_digit_value c → digit_char n = c.
Proof.
  intros Hc Hn. apply ascii_digit_bounds in Hc.
  unfold digit_char. rewrite Hn. unfold ascii_digit_value. lia.
Qed.

Lemma two_digits_of_values (a b : N) :
  char_is_ascii_digit a = true → char_is_ascii_digit b = true →
  two_digits (10 * ascii_digit_value a + ascii_digit_value b) = [a; b].
Proof.
  intros Ha Hb. unfold two_digits.
  destruct (ascii_digit_facts a Ha) as (_ & _ & _ & Va).
  destruct (ascii_digit_facts b Hb) as (_ & _ & _ & Vb).
  f_equal; [|f_equal]; apply digit_char_of_value; try assumption;
    Z.div_mod_to_equations; lia.
Qed.

Lemma drop_zeros_fixed (c : N) (s : str) : c ≠ 0x30%N → drop_zeros (c :: s) = c :: s.
Proof.
  intros Hc. destruct s as [|x s]; [reflexivity|]. simpl.
  destruct (c =? 48)%N eqn:E; [apply N.eqb_eq in E; congruence | reflexivity].
Qed.

Lemma decimal_text_of_values (a b c d : N) :
  char_is_ascii_digit a = true → char_is_ascii_digit b = true →
  char_is_ascii_digit c = true → char_is_ascii_digit d = true →
  1000 <= 1000 * ascii_digit_value a + 100 * ascii_digit_value b
          + 10 * ascii_digit_value c + ascii_digit_value d →
  decimal_text (1000 * ascii_digit_value a + 100 * ascii_digit_value b
                + 10 * ascii_digit_value c + ascii_digit_value d)
  = [a; b; c; d].
Proof.
  intros Ha Hb Hc Hd Hy. unfold decimal_text.
  destruct (ascii_digit_facts a Ha) as (_ & _ & _ & Va).
  destruct (ascii_digit_facts b Hb) as (_ & _ & _ & Vb).
  destruct (ascii_digit_facts c Hc) as (_ & _ & _ & Vc).
  destruct (ascii_digit_facts d Hd) as (_ & _ & _ & Vd).
  rewrite (digit_char_of_value a) by (try assumption; Z.div_mod_to_equations; lia).
  rewrite (digit_char_of_value b) by (try assumption; Z.div_mod_to_equations; lia).
  rewrite (digit_char_of_value c) by (try assumption; Z.div_mod_to_equations; lia).
  rewrite (digit_char_of_value d) by (try assumption; Z.div_mod_to_equations; lia).
  apply drop_zeros_fixed. unfold ascii_digit_value in *. lia.
Qed.

(** Printing the date read from a text in the format DD.MM.YYYY, with a year
    of four significant digits, gives the text back. *)
Lemma strftime_of_read (s : str) (y m d hh mm ss us : Z) :
  read_DD_MM_YYYY s = Some (y, m, d) → 1000 <= y →
  strftime (mkDatetime y m d hh mm ss us) = s.
Proof.
  intros Hread Hy.
  destruct (read_DD_MM_YYYY_shape s y m d Hread)
    as (d1 & d2 & m1 & m2 & y1 & y2 & y3 & y4 & -> & Hdig & -> & -> & ->).
  repeat match goal with
  | H : Forall _ (_ :: _) |- _ => apply Forall_cons in H as [? H]
  end.
  unfold strftime. cbn [year month day].
  rewrite !two_digits_of_values, decimal_text_of_values by assumption.
  reflexivity.
Qed.

(** Reading the printed text of a date with a year of four significant
    digits gives the date back. *)
Lemma read_of_strftime (y m d hh mm ss us : Z) :
  1000 <= y <= 9999 → 0 <= m < 100 → 0 <= d < 100 →
  read_DD_MM_YYYY (strftime (mkDatetime y m d hh mm ss us)) = Some (y, m, d).
Proof.
  intros Hy Hm Hd. unfold strftime, two_digits, decimal_text. cbn [year month day].
  rewrite drop_zeros_fixed.
  2:{ unfold digit_char. intros H.
      pose proof (Z.mod_pos_bound (y / 1000) 10 ltac:(lia)) as Hb.
      assert (y / 1000 mod 10 = 0) by lia. Z.div_mod_to_equations. lia. }
  change (u ".") with [46%N]. cbn [app]. unfold read_DD_MM_YYYY.
  change (46 =? ch ".")%N with true. cbn [andb forallb].
  rewrite !digit_char_ascii. cbn [andb]. rewrite !digit_char_value.
  f_equal. f_equal; [f_equal|]; Z.div_mod_to_equations; lia.
Qed.

(** X12: a birthday entered in the format DD.MM.YYYY, with a year of four
    significant digits, for a contact that has none, is shown by
    [show_birthday] exactly as it was typed. *)
Theorem X12_show_birthday_after_add_birthday
  (st : State) (name s : str) (a : nat) (y m d : Z) :
  wf_state st →
  dict_get name (book st) = Some a →
  r_birthday (deref (heap st) a) = None →
  read_DD_MM_YYYY s = Some (y, m, d) →
  valid_date y m d = true →
  1000 <= y →
  fst (add_birthday [name; s] st) = Return (u "Birthday for " ++ name ++ u " added.")
  ∧ show_birthday [name] (snd (add_birthday [name; s] st))
    = (Return (name ++ u "'s birthday is on " ++ s),
       snd (add_birthday [name; s] st)).
Proof.
  intros Hwf Hget Hnone Hread Hvalid Hy.
  destruct (wf_state_allocated st name a Hwf Hget) as (r & Hr & _).
  rewrite (deref_lookup _ _ _ Hr) in Hnone.
  assert (Hb : Birthday_init s = Return (mkBirthday (mkDatetime y m d 0 0 0 0))).
  { unfold Birthday_init. rewrite (strptime_DD_MM_YYYY s y m d Hread Hvalid).
    reflexivity. }
  assert (Hrun : add_birthday [name; s] st
                 = (Return (u "Birthday for " ++ name ++ u " added."),
                    mkState (<[a := set_birthday
                                      (Some (mkBirthday (mkDatetime y m d 0 0 0 0))) r]>
                               (heap st))
                            (book st))).
  { unfold add_birthday, input_error. unfold bind at 1. unfold gets at 1.
    rewrite Hget. unfold bind, call. rewrite (deref_lookup _ _ _ Hr).
    rewrite (add_birthday_unset r s Hnone), Hb. reflexivity. }
  rewrite Hrun. cbn [fst snd]. split; [reflexivity|].
  unfold show_birthday, input_error, bind, gets, ret, id. cbn [book heap].
  rewrite Hget.
  erewrite deref_lookup
    by (apply list_lookup_insert_eq; eapply lookup_lt_Some, Hr).
  cbn [set_birthday r_birthday Birthday_value].
  rewrite (strftime_of_read s y m d 0 0 0 0 Hread Hy). reflexivity.
Qed.

Lemma X12_show_birthday_after_add_birthday_witness :
  let st := mkState [mkRecord (mkName (u "Bob")) [mkPhone (u "5555555555")] None]
                    [(u "Bob", 0%nat)] in
  fst (add_birthday [u "Bob"; u "29.02.2024"] st)
  = Return (u "Birthday for " ++ u "Bob" ++ u " added.")
  ∧ show_birthday [u "Bob"] (snd (add_birthday [u "Bob"; u "29.02.2024"] st))
    = (Return (u "Bob" ++ u "'s birthday is on " ++ u "29.02.2024"),
       snd (add_birthday [u "Bob"; u "29.02.2024"] st)).
Proof.
  intros st.
  apply (X12_show_birthday_after_add_birthday st (u "Bob") (u "29.02.2024")
           0%nat 2024 2 29).
  - exact wf_state_example.
  - vm_compute. reflexivity.
  - reflexivity.
  - vm_compute. reflexivity.
  - vm_compute. reflexivity.
  - lia.
Defined.

(** X13: the text [strftime] prints for a birthday with a year of four
    significant digits is accepted by [Birthday.__init__], which builds the
    same birthday from it. *)
Theorem X13_Birthday_of_printed_date (b : Birthday) :
  valid_birthday b →
  1000 <= year (Birthday_value b) →
  Birthday_init (strftime (Birthday_value b)) = Return b.
Proof.
  destruct b as [[y m d hh mm ss us]]. unfold valid_birthday. cbn.
  intros (Hvalid & -> & -> & -> & ->) Hy.
  assert (Hv := Hvalid). unfold valid_date in Hv.
  apply andb_true_iff in Hv as [Hv Hv3]. apply andb_true_iff in Hv as [Hv1 Hv2].
  apply andb_true_iff in Hv1 as [_ Hy2].
  apply andb_true_iff in Hv2 as [Hm1 Hm2]. apply andb_true_iff in Hv3 as [Hd1 Hd2].
  apply Z.leb_le in Hy2, Hm1, Hm2, Hd1, Hd2. unfold MAXYEAR in Hy2.
  pose proof (days_in_month_at_most_31 y m (conj Hm1 Hm2)) as H31.
  unfold Birthday_init.
  rewrite (strptime_DD_MM_YYYY _ y m d); [reflexivity| |exact Hvalid].
  apply (read_of_strftime y m d 0 0 0 0); lia.
Qed.

Lemma X13_Birthday_of_printed_date_witness :
  Birthday_init (strftime (mkDatetime 2024 2 29 0 0 0 0))
  = Return (mkBirthday (mkDatetime 2024 2 29 0 0 0 0)).
Proof.
  apply (X13_Birthday_of_printed_date (mkBirthday (mkDatetime 2024 2 29 0 0 0 0))).
  - unfold valid_birthday. cbn. repeat split; vm_compute; reflexivity.
  - cbn. lia.
Defined.

(** ** The window of upcoming birthdays *)

Lemma upcoming_from_entries (today owl : datetime) (h : list RecordObj)
  (addrs : list nat) :
  ∀ acc l,
  upcoming_from today owl h addrs acc = Return l →
  ∀ entry, entry ∈ l →
    entry ∈ acc
    ∨ ∃ a b occ,
        a ∈ addrs
        ∧ r_birthday (deref h a) = Some b
        ∧ datetime_replace_year (Birthday_value b) (year today) = Return occ
        ∧ datetime_le today occ = true
        ∧ entry = (Name_value (r_name (deref h a)), strftime occ).
Proof.
  induction addrs as [|a addrs IH]; intros acc l Hrun entry Hin.
  - simpl in Hrun. injection Hrun as <-. left. exact Hin.
  - cbn [upcoming_from] in Hrun.
    assert (Hlater : ∀ acc', upcoming_from today owl h addrs acc' = Return l →
              (∀ x, x ∈ acc' → x ∈ acc ∨ ∃ b occ,
                   r_birthday (deref h a) = Some b
                   ∧ datetime_replace_year (Birthday_value b) (year today) = Return occ
                   ∧ datetime_le today occ = true
                   ∧ x = (Name_value (r_name (deref h a)), strftime occ)) →
              entry ∈ acc
              ∨ ∃ a0 b occ,
                  a0 ∈ a :: addrs
                  ∧ r_birthday (deref h a0) = Some b
                  ∧ datetime_replace_year (Birthday_value b) (year today) = Return occ
                  ∧ datetime_le today occ = true
                  ∧ entry = (Name_value (r_name (deref h a0)), strftime occ)).
    { intros acc' Hrun' Hacc'.
      destruct (IH acc' l Hrun' entry Hin) as [H|(a0 & b & occ & Ha0 & H)].
      - destruct (Hacc' entry H) as [H'|(b & occ & H')]; [left; exact H'|].
        right. exists a, b, occ. split; [apply list_elem_of_here | exact H'].
      - right. exists a0, b, occ. split; [apply list_elem_of_further, Ha0 | exact H]. }
    destruct (r_birthday (deref h a)) as [b|] eqn:Hb.
    + destruct (datetime_replace_year (Birthday_value b) (year today)) as [occ|e]
        eqn:Hocc; cbn [obind] in Hrun; [|discriminate].
      destruct (datetime_le today occ) eqn:Hle; cbn [andb] in Hrun.
      * destruct (datetime_le occ owl).
        -- apply (Hlater _ Hrun). intros x Hx. apply elem_of_app in Hx as [Hx|Hx].
           ++ left. exact Hx.
           ++ apply list_elem_of_singleton in Hx. right. exists b, occ. auto.
        -- apply (Hlater _ Hrun). auto.
      * apply (Hlater _ Hrun). auto.
    + apply (Hlater _ Hrun). auto.
Qed.

Lemma digit_char_inj (n n' : Z) : digit_char n = digit_char n' → n mod 10 = n' mod 10.
Proof.
  intros H. rewrite <- (digit_char_value n), <- (digit_char_value n'), H.
  reflexivity.
Qed.

Lemma two_digits_inj (n n' : Z) :
  0 <= n < 100 → 0 <= n' < 100 → two_digits n = two_digits n' → n = n'.
Proof.
  intros Hn Hn'. unfold two_digits. intros [= H1 H2].
  apply digit_char_inj in H1, H2. Z.div_mod_to_equations. lia.
Qed.

Lemma not_before_midnight_of_same_day (today : datetime) (m d : Z) :
  after_midnight today →
  datetime_le today (mkDatetime (year today) m d 0 0 0 0) = true →
  ¬ (m = month today ∧ d = day today).
Proof.
  intros (Hh & Hmi & Hs & Hus & Hpos) Hle [-> ->].
  unfold datetime_le, datetime_fields in Hle. cbn [tuple_le year month day
    hour minute second microsecond] in Hle.
  rewrite !Z.ltb_irrefl, !Z.eqb_refl in Hle. cbn [orb andb] in Hle.
  repeat match type of Hle with
  | context [(?x <? 0)] =>
      let E := fresh in
      destruct (x <? 0) eqn:E; [apply Z.ltb_lt in E; lia|]; clear E
  end.
  cbn [orb] in Hle.
  destruct (hour today =? 0) eqn:E1; [apply Z.eqb_eq in E1|discriminate].
  destruct (minute today =? 0) eqn:E2; [apply Z.eqb_eq in E2|discriminate].
  destruct (second today =? 0) eqn:E3; [apply Z.eqb_eq in E3|discriminate].
  destruct (microsecond today =? 0) eqn:E4; [apply Z.eqb_eq in E4|discriminate].
  lia.
Qed.

(** X14: asked at any time after midnight, [get_upcoming_birthdays] never
    lists a birthday that falls on the very day: no entry carries the date
    of today.  (The occurrence is at midnight, before the clock.) *)
Theorem X14_birthday_of_today_is_not_listed
  (today : datetime) (st : State) (l : list (str * str)) :
  after_midnight today →
  valid_date (year today) (month today) (day today) = true →
  Forall fields_valid (records st) →
  AddressBook_get_upcoming_birthdays today st = Return l →
  ∀ name date, (name, date) ∈ l → date ≠ strftime today.
Proof.
  intros Hafter Hvt Hf Hrun name date Hin Hdate.
  unfold AddressBook_get_upcoming_birthdays in Hrun.
  destruct (datetime_add_days today 7) as [owl|e]; [|discriminate].
  cbn [obind] in Hrun.
  destruct (upcoming_from_entries today owl (heap st) _ [] l Hrun _ Hin)
    as [H|(a & b & occ & Ha & Hb & Hocc & Hle & [= -> ->])].
  { apply elem_of_nil in H. contradiction. }
  assert (Hvb : valid_birthday b).
  { apply list_elem_of_fmap in Ha as ([k a'] & -> & He).
    rewrite Forall_forall in Hf.
    assert (Hr : deref (heap st) a' ∈ records st).
    { unfold records. apply list_elem_of_fmap. exists (k, a'). auto. }
    exact (proj2 (Hf _ Hr) b Hb). }
  destruct Hvb as (Hvalid & Hh & Hmi & Hs & Hus).
  apply (replace_year_occurrence _ _ today occ eq_refl) in Hocc. subst occ.
  unfold occurrence in *. rewrite Hh, Hmi, Hs, Hus in *.
  apply (not_before_midnight_of_same_day today _ _ Hafter Hle).
  unfold valid_date in Hvalid, Hvt.
  apply andb_true_iff in Hvalid as [Hv Hv3]. apply andb_true_iff in Hv as [_ Hv2].
  apply andb_true_iff in Hv2 as [Hm1 Hm2]. apply andb_true_iff in Hv3 as [Hd1 Hd2].
  apply andb_true_iff in Hvt as [Ht Ht3]. apply andb_true_iff in Ht as [_ Ht2].
  apply andb_true_iff in Ht2 as [Htm1 Htm2]. apply andb_true_iff in Ht3 as [Htd1 Htd2].
  apply Z.leb_le in Hm1, Hm2, Hd1, Hd2, Htm1, Htm2, Htd1, Htd2.
  pose proof (days_in_month_at_most_31 (year (Birthday_value b)) _ (conj Hm1 Hm2)) as H31.
  pose proof (days_in_month_at_most_31 (year today) _ (conj Htm1 Htm2)) as Ht31.
  unfold strftime in Hdate. cbn [year month day] in Hdate.
  change (u ".") with [46%N] in Hdate. unfold two_digits in Hdate.
  cbn [app] in Hdate. injection Hdate as D1 D2 M1 M2.
  apply digit_char_inj in D1, D2, M1, M2.
  split; Z.div_mod_to_equations; lia.
Qed.

Lemma fields_valid_born (name : str) (y m d : Z) :
  valid_date y m d = true → fields_valid (mkRecord (mkName name) [] (born y m d)).
Proof.
  intros H. split; [constructor|]. intros b [= <-]. unfold valid_birthday. cbn. auto.
Qed.

Lemma X14_birthday_of_today_is_not_listed_witness :
  let today := mkDatetime 2024 6 5 9 30 0 0 in
  let st := mkState [ mkRecord (mkName (u "Ann")) [] (born 2000 6 5);
                      mkRecord (mkName (u "Fay")) [] (born 2000 6 7) ]
                    [ (u "Ann", 0%nat); (u "Fay", 1%nat) ] in
  AddressBook_get_upcoming_birthdays today st = Return [(u "Fay", u "07.06.2024")]
  ∧ ∀ name date, (name, date) ∈ [(u "Fay", u "07.06.2024")] → date ≠ strftime today.
Proof.
  intros today st.
  assert (Hrun : AddressBook_get_upcoming_birthdays today st
                 = Return [(u "Fay", u "07.06.2024")]) by (vm_compute; reflexivity).
  split; [exact Hrun|].
  apply (X14_birthday_of_today_is_not_listed today st).
  - unfold after_midnight. cbn. lia.
  - vm_compute. reflexivity.
  - change (Forall fields_valid
              [ mkRecord (mkName (u "Ann")) [] (born 2000 6 5);
                mkRecord (mkName (u "Fay")) [] (born 2000 6 7) ]).
    repeat apply Forall_cons_2; try apply Forall_nil_2;
      apply fields_valid_born; vm_compute; reflexivity.
  - exact Hrun.
Defined.

Lemma day_fits_other_year (y y' m d : Z) :
  valid_date y m d = true →
  is_leap y' = true ∨ ¬ (m = 2 ∧ d = 29) →
  (1 <=? d) && (d <=? days_in_month y' m) = true.
Proof.
  unfold valid_date. intros Hv Hleap.
  apply andb_true_iff in Hv as [_ Hv]. apply andb_true_iff in Hv as [Hd1 Hd2].
  rewrite Hd1. cbn [andb]. apply Z.leb_le in Hd2. apply Z.leb_le.
  unfold days_in_month in *.
  destruct (m =? 2) eqn:Em; cbn [andb] in *; [|exact Hd2].
  apply Z.eqb_eq in Em. subst m.
  change (DAYS_IN_MONTH 2) with 28 in *.
  destruct (is_leap y'); [destruct (is_leap y); lia|].
  destruct Hleap as [Hl|Hl]; [discriminate|].
  destruct (is_leap y); lia.
Qed.

Lemma replace_year_returns (b : Birthday) (y' : Z) :
  valid_birthday b →
  MINYEAR <= y' <= MAXYEAR →
  is_leap y' = true ∨ ¬ (month (Birthday_value b) = 2 ∧ day (Birthday_value b) = 29) →
  is_return (datetime_replace_year (Birthday_value b) y').
Proof.
  intros (Hvalid & _) Hy Hleap. unfold datetime_replace_year, datetime_new.
  assert (H1 : (MINYEAR <=? y') && (y' <=? MAXYEAR) = true)
    by (apply andb_true_iff; split; apply Z.leb_le; lia).
  rewrite H1, (day_fits_other_year _ y' _ _ Hvalid Hleap).
  unfold valid_date in Hvalid. apply andb_true_iff in Hvalid as [Hv _].
  apply andb_true_iff in Hv as [_ Hm]. rewrite Hm. eexists. reflexivity.
Qed.

(** X15: when every birthday of the book is a date of the calendar at
    midnight, the year of the clock is one the calendar holds and the week
    ahead does not pass its end, [get_upcoming_birthdays] returns its list
    whenever the year of the clock is a leap year or no contact is born on
    29 February: these leave the raise of a missing 29 February as its only
    failure. *)
Theorem X15_upcoming_birthdays_returns
  (today : datetime) (st : State) :
  Forall fields_valid (records st) →
  MINYEAR <= year today <= MAXYEAR →
  is_return (datetime_add_days today 7) →
  (is_leap (year today) = true
   ∨ Forall (fun r => ∀ b, r_birthday r = Some b →
                      ¬ (month (Birthday_value b) = 2 ∧ day (Birthday_value b) = 29))
            (records st)) →
  AddressBook_get_upcoming_birthdays today st
  = Return (upcoming_spec today (records st)).
Proof.
  intros Hf Hy [owl Howl] Hleap.
  assert (Hdef : occurrences_defined today st).
  { unfold occurrences_defined. rewrite Forall_forall in Hf |- *. intros r Hr b Hb.
    apply replace_year_returns; [exact (proj2 (Hf r Hr) b Hb) | exact Hy|].
    destruct Hleap as [Hl|Hn]; [left; exact Hl|]. right.
    rewrite Forall_forall in Hn. exact (Hn r Hr b Hb). }
  unfold AddressBook_get_upcoming_birthdays. rewrite Howl. cbn [obind].
  rewrite (add_days_plus_days _ _ _ Howl).
  unfold occurrences_defined, records in Hdef.
  rewrite <- (map_map snd (deref (heap st))) in Hdef.
  rewrite (upcoming_from_spec today (heap st) (map snd (book st)) Hdef []).
  unfold records. rewrite <- (map_map snd (deref (heap st))). reflexivity.
Qed.

Lemma X15_upcoming_birthdays_returns_witness :
  AddressBook_get_upcoming_birthdays (mkDatetime 2024 2 25 9 30 0 0) leap_day_book
  = Return (upcoming_spec (mkDatetime 2024 2 25 9 30 0 0) (records leap_day_book))
  ∧ upcoming_spec (mkDatetime 2024 2 25 9 30 0 0) (records leap_day_book)
    = [(u "Bob", u "29.02.2024")].
Proof.
  split; [|vm_compute; reflexivity].
  apply (X15_upcoming_birthdays_returns (mkDatetime 2024 2 25 9 30 0 0) leap_day_book).
  - change (Forall fields_valid
              [ mkRecord (mkName (u "Ann")) [] (born 2000 6 5);
                mkRecord (mkName (u "Bob")) [] (born 2000 2 29) ]).
    repeat apply Forall_cons_2; try apply Forall_nil_2;
      apply fields_valid_born; vm_compute; reflexivity.
  - cbn. unfold MINYEAR, MAXYEAR. lia.
  - eexists. vm_compute. reflexivity.
  - left. vm_compute. reflexivity.
Defined.

(** ** Errors of the handlers *)

Lemma len_is (A : Type) (l : list A) (n : nat) : len l = Z.of_nat n ↔ length l = n.
Proof. unfold len. lia. Qed.

(** X16: a handler called with the wrong number of arguments answers with its
    own message about the arguments it expects and leaves the state as it
    was: fewer than two for [add_contact], other than three for
    [change_contact], other than two for [add_birthday], other than one for
    [show_phone] and [show_birthday]. *)
Theorem X16_wrong_arity_is_reported (args : list str) (st : State) :
  ((length args < 2)%nat →
   add_contact args st
   = (Return (u "Please enter a name and at least one phone number."), st))
  ∧ (length args ≠ 3%nat →
     change_contact args st
     = (Return (u "Please enter a name, old phone number, and new phone number."), st))
  ∧ (length args ≠ 2%nat →
     add_birthday args st
     = (Return (u "Please enter a name and birthday in DD.MM.YYYY format."), st))
  ∧ (length args ≠ 1%nat →
     show_phone args st = (Return (u "Please enter a name."), st))
  ∧ (length args ≠ 1%nat →
     show_birthday args st = (Return (u "Please enter a name."), st)).
Proof.
  split; [|split; [|split; [|split]]]; intros H.
  - destruct args as [|a [|b args]]; [reflexivity | reflexivity | simpl in H; lia].
  - destruct args as [|a [|b [|c [|d args]]]]; try reflexivity. simpl in H. lia.
  - destruct args as [|a [|b [|c args]]]; try reflexivity. simpl in H. lia.
  - destruct args as [|a [|b args]]; try reflexivity. simpl in H. lia.
  - destruct args as [|a [|b args]]; try reflexivity. simpl in H. lia.
Qed.

Lemma X16_wrong_arity_is_reported_witness :
  add_contact [u "Alice"] (mkState [] [])
  = (Return (u "Please enter a name and at least one phone number."), mkState [] []).
Proof.
  apply (X16_wrong_arity_is_reported [u "Alice"] (mkState [] [])). simpl. lia.
Defined.

(** X17: a command about a name that is not in the book leaves the state as
    it was; [change_contact] and [show_phone] answer with the text of their
    [KeyError], which is the message between quotes, [add_birthday] with the
    plain message, and [show_birthday] says that no birthday was found. *)
Theorem X17_unknown_name_is_reported
  (st : State) (name old_phone new_phone birthday : str) :
  dict_get name (book st) = None →
  change_contact [name; old_phone; new_phone] st
  = (Return (u "'Contact not found.'"), st)
  ∧ show_phone [name] st = (Return (u "'Contact not found.'"), st)
  ∧ add_birthday [name; birthday] st = (Return (u "Contact not found."), st)
  ∧ show_birthday [name] st = (Return (u "Birthday not found."), st).
Proof.
  intros H. split; [|split; [|split]].
  - unfold change_contact, input_error, bind, gets, raise. rewrite H. reflexivity.
  - apply show_phone_unknown, H.
  - unfold add_birthday, input_error, bind, gets, ret. rewrite H. reflexivity.
  - unfold show_birthday, input_error, bind, gets, ret, id. rewrite H. reflexivity.
Qed.

Lemma X17_unknown_name_is_reported_witness :
  let st := mkState [mkRecord (mkName (u "Bob")) [mkPhone (u "5555555555")] None]
                    [(u "Bob", 0%nat)] in
  change_contact [u "Alice"; u "1111111111"; u "2222222222"] st
  = (Return (u "'Contact not found.'"), st)
  ∧ show_phone [u "Alice"] st = (Return (u "'Contact not found.'"), st)
  ∧ add_birthday [u "Alice"; u "05.06.2000"] st = (Return (u "Contact not found."), st)
  ∧ show_birthday [u "Alice"] st = (Return (u "Birthday not found."), st).
Proof.
  intros st.
  apply (X17_unknown_name_is_reported st (u "Alice") (u "1111111111")
           (u "2222222222") (u "05.06.2000")).
  vm_compute. reflexivity.
Defined.

(** ** Changing a phone and back *)

Lemma Phone_init_accepted (s : str) :
  is_return (Phone_init s) → Phone_init s = Return (mkPhone s).
Proof.
  intros [p Hp]. destruct (Phone_init_cases s) as [[_ He]|[_ He]];
    [exact He | rewrite He in Hp; discriminate].
Qed.

(** X18: changing a phone of a record and changing it back restores the
    record, when both numbers are accepted and the new one is not listed
    before the one changed. *)
Theorem X18_change_phone_and_back
  (self : RecordObj) (old_phone new_phone : str)
  (before : list Phone) (p : Phone) (after : list Phone) :
  r_phones self = before ++ p :: after →
  Phone_value p = old_phone →
  Forall (fun x => Phone_value x ≠ old_phone) before →
  Forall (fun x => Phone_value x ≠ new_phone) before →
  is_return (Phone_init old_phone) →
  is_return (Phone_init new_phone) →
  ∃ changed,
    Record_change_phone old_phone new_phone self = (Return true, changed)
    ∧ r_phones changed = before ++ mkPhone new_phone :: after
    ∧ Record_change_phone new_phone old_phone changed = (Return true, self).
Proof.
  intros Hself Hp Hold Hnew Hok_old Hok_new.
  apply Phone_init_accepted in Hok_old, Hok_new.
  pose proof (change_phone_from_found self old_phone new_phone before p after
                Hp Hold [] Hself) as H1.
  rewrite Hok_new in H1. simpl in H1.
  exists (set_phones (fun _ => before ++ mkPhone new_phone :: after) self).
  split; [|split].
  - unfold Record_change_phone, bind, gets, id. rewrite Hself. exact H1.
  - reflexivity.
  - set (changed := set_phones (fun _ => before ++ mkPhone new_phone :: after) self).
    pose proof (change_phone_from_found changed new_phone old_phone before
                  (mkPhone new_phone) after eq_refl Hnew [] eq_refl) as H2.
    rewrite Hok_old in H2. simpl in H2.
    unfold Record_change_phone, bind, gets, id.
    change (r_phones changed) with (before ++ mkPhone new_phone :: after).
    rewrite H2. f_equal. unfold changed, set_phones. cbn [r_name r_birthday].
    destruct self as [n ps b]. cbn in *. subst ps.
    destruct p as [v]. cbn in Hp. subst v. reflexivity.
Qed.

Lemma X18_change_phone_and_back_witness :
  let p1 := mkPhone (u "1111111111") in
  let p3 := mkPhone (u "3333333333") in
  let self := mkRecord (mkName (u "Alice")) [p3; p1; p3] None in
  ∃ changed,
    Record_change_phone (u "1111111111") (u "2222222222") self = (Return true, changed)
    ∧ r_phones changed = [p3] ++ mkPhone (u "2222222222") :: [p3]
    ∧ Record_change_phone (u "2222222222") (u "1111111111") changed
      = (Return true, self).
Proof.
  intros p1 p3 self.
  apply (X18_change_phone_and_back self (u "1111111111") (u "2222222222")
           [p3] p1 [p3]).
  - reflexivity.
  - reflexivity.
  - repeat constructor. vm_compute. discriminate.
  - repeat constructor. vm_compute. discriminate.
  - eexists. vm_compute. reflexivity.
  - eexists. vm_compute. reflexivity.
Defined.

(** ** The loop *)

(** X19: only the verbs [add], [change] and [add-birthday] can change the
    state: a line read as any other verb, known or not, leaves it as it
    was. *)
Theorem X19_only_three_verbs_change_the_state
  (lower : str → str) (now : datetime) (line : str) (st : State) :
  fst (parse_input lower line) ≠ u "add" →
  fst (parse_input lower line) ≠ u "change" →
  fst (parse_input lower line) ≠ u "add-birthday" →
  snd (main_step lower now line st) = st.
Proof.
  intros H1 H2 H3. unfold main_step.
  destruct (parse_input lower line) as [command args]. cbn [fst] in *.
  rewrite (bool_decide_eq_false_2 _ H1), (bool_decide_eq_false_2 _ H2),
    (bool_decide_eq_false_2 _ H3).
  repeat match goal with
  | |- context [if ?b then _ else _] => destruct b
  end; try reflexivity; rewrite snd_print.
  - apply show_phone_state.
  - apply show_all_state.
  - apply show_birthday_state.
  - apply birthdays_state.
Qed.

Lemma X19_only_three_verbs_change_the_state_witness :
  let st := mkState [mkRecord (mkName (u "Bob")) [mkPhone (u "5555555555")] None]
                    [(u "Bob", 0%nat)] in
  snd (main_step ascii_lower (mkDatetime 2024 6 1 12 0 0 0) (u "delete Bob") st) = st.
Proof.
  intros st. apply (X19_only_three_verbs_change_the_state ascii_lower);
    vm_compute; discriminate.
Defined.

(** X20: the loop handles a session piece by piece: when no line of the
    first part is a [close] or an [exit], the lines that follow are handled
    from the state the first part leaves, and the outputs follow one another;
    after a [close] or an [exit] nothing that is typed is handled. *)
Theorem X20_main_loop_composes
  (lower : str → str) (first later : list (datetime * str)) (st : State) :
  ((∀ text, Exited text ∉ fst (main_loop lower first st)) →
   main_loop lower (first ++ later) st
   = (fst (main_loop lower first st)
      ++ fst (main_loop lower later (snd (main_loop lower first st))),
      snd (main_loop lower later (snd (main_loop lower first st)))))
  ∧ ((∃ text, Exited text ∈ fst (main_loop lower first st)) →
     main_loop lower (first ++ later) st = main_loop lower first st).
Proof.
  revert st. induction first as [|[now line] first IH]; intros st.
  - split.
    + intros _. simpl. destruct (main_loop lower later st); reflexivity.
    + intros [text H]. simpl in H. apply elem_of_nil in H. contradiction.
  - cbn [app main_loop].
    pose proof (main_step_never_crashes lower now line st) as Hno.
    destruct (main_step lower now line st) as [[t|t|e] st'].
    + destruct (IH st') as [IH1 IH2].
      destruct (main_loop lower first st') as [out st''] eqn:E. cbn [fst snd] in *.
      split.
      * intros Hnone. rewrite IH1.
        -- destruct (main_loop lower later st''); reflexivity.
        -- intros text Hin. apply (Hnone text). apply list_elem_of_further, Hin.
      * intros [text Hin]. apply elem_of_cons in Hin as [Hin|Hin]; [discriminate|].
        rewrite IH2 by (exists text; exact Hin). reflexivity.
    + split; [|reflexivity]. intros Hnone. exfalso. apply (Hnone t).
      apply list_elem_of_here.
    + exfalso. exact (Hno e eq_refl).
Qed.

Lemma X20_main_loop_composes_witness :
  let clock := mkDatetime 2024 6 1 12 0 0 0 in
  main_loop ascii_lower ([(clock, u "add Alice 1234567890"); (clock, u "exit")]
                         ++ [(clock, u "add Bob 5555555555")]) (mkState [] [])
  = main_loop ascii_lower [(clock, u "add Alice 1234567890"); (clock, u "exit")]
              (mkState [] []).
Proof.
  intros clock.
  apply (X20_main_loop_composes ascii_lower
           [(clock, u "add Alice 1234567890"); (clock, u "exit")]
           [(clock, u "add Bob 5555555555")] (mkState [] [])).
  exists (u "Good bye!"). vm_compute. apply list_elem_of_further, list_elem_of_here.
Defined.
